(** * Boltzmann-Distribution: the simulator and reporter of [main.py]

    A shallow embedding of [get_shift], [midpoint], [B], [save_csv] and the
    data transformation of [plot], followed by the properties of the
    specification that were checked against them.

    Conventions of the embedding.
    - Python [int] is [Z].
    - Python [float] is [Qc], the rationals in lowest terms.  Comparison of
      floats is exact, so [x < key] is modelled without loss.  Arithmetic
      ([/], [*], [sum]) is the exact one: the binary rounding of the
      machine is not part of the model, and neither are infinities, NaN
      and the [OverflowError] of a result too large for a float.  A
      statement that depends on the value or on the success of such an
      operation carries the hypothesis under which the machine computes
      the exact result ([midpoint_exact], non-negative counts), or is
      conditional on the run having completed.
    - [str] of an int is total here; from Python 3.11 on it raises
      [ValueError] beyond 4300 digits, and a statement about the text of
      the file is restricted to the ints that it prints ([printable]).
    - A Python [dict] is an association list in insertion order; a value
      built by the dictionary operations has pairwise distinct keys.
    - An exception is a value of [exn]; code that may raise returns
      [result].
    - [numpy.random.random(unit_number)] is an explicit source of draws:
      [random t i] is element [i] of the array returned by the call made in
      trial [t] (trials are numbered from 0). *)

From Stdlib Require Import ZArith QArith Qcanon Qround Lia String Ascii.
From Stdlib Require Import DecimalString DecimalZ DecimalPos.
From stdpp Require Import base list numbers sorting.

Open Scope Z_scope.

(** ** The Python runtime that the program relies on *)

Module Py.

(** The exceptions that the modelled statements can raise.  The
    [ValueError]s are kept apart by their origin. *)
Inductive exn : Type :=
| ValueError_max            (* max() arg is an empty sequence *)
| ValueError_shift (x : Qc) (* raise ValueError(f"Could not find shift for x={x}") *)
| ValueError_size           (* numpy: negative dimensions are not allowed *)
| KeyError
| IndexError
| ZeroDivisionError.

Inductive result (A : Type) : Type :=
| Ok (a : A)
| Raise (e : exn).
Arguments Ok {A} a.
Arguments Raise {A} e.

(** Sequencing: the first exception raised ends the computation. *)
#[global] Instance result_bind : MBind result := fun A B k m =>
  match m with
  | Ok a => k a
  | Raise e => Raise e
  end.

Definition raises {A : Type} (m : result A) : Prop :=
  match m with
  | Ok _ => False
  | Raise _ => True
  end.

(** *** Dictionaries *)

Section Dict.
Context {K : Type} `{EqDecision K} {V : Type}.

Definition keys (d : list (K * V)) : list K := map fst d.
Definition values (d : list (K * V)) : list V := map snd d.

(** [d.get(k)] *)
Fixpoint dict_get (k : K) (d : list (K * V)) : option V :=
  match d with
  | [] => None
  | (k', v) :: d' => if decide (k' = k) then Some v else dict_get k d'
  end.

(** [d[k]] *)
Definition dict_item (k : K) (d : list (K * V)) : result V :=
  match dict_get k d with
  | Some v => Ok v
  | None => Raise KeyError
  end.

(** [d[k] = v]: an existing key keeps its place, a new one goes last. *)
Fixpoint dict_set (k : K) (v : V) (d : list (K * V)) : list (K * V) :=
  match d with
  | [] => [(k, v)]
  | (k', v') :: d' =>
      if decide (k' = k) then (k', v) :: d' else (k', v') :: dict_set k v d'
  end.
End Dict.

(** *** Numbers and sequences *)

(** [range(n)], as the list of indices it yields. *)
Definition range (n : Z) : list nat := seq 0 (Z.to_nat n).

(** [range(lo, hi)] *)
Definition range2 (lo hi : Z) : list Z := seqZ lo (hi - lo).

(** [[x] * n] *)
Definition list_repeat {A : Type} (x : A) (n : Z) : list A :=
  replicate (Z.to_nat n) x.

(** [sum] of a list of ints and of a list of floats; the sum of floats
    is the exact one, without the rounding of each addition. *)
Definition sum_int (l : list Z) : Z := fold_left Z.add l 0.
Definition sum_float (l : list Qc) : Qc := fold_left Qcplus l 0%Qc.

(** [max] of a sequence of ints. *)
Definition max_int (l : list Z) : result Z :=
  match l with
  | [] => Raise ValueError_max
  | v :: l' => Ok (fold_left Z.max l' v)
  end.

(** [a / b] for two ints: the exact quotient, where the machine gives the
    nearest float and raises [OverflowError] when the quotient is too
    large for a float. *)
Definition int_truediv (a b : Z) : result Qc :=
  if decide (b = 0) then Raise ZeroDivisionError
  else Ok (Qc_of_Z a / Qc_of_Z b)%Qc.

(** [a / b] for a float and an int: the exact quotient, where the machine
    gives the nearest float. *)
Definition float_truediv (a : Qc) (b : Z) : result Qc :=
  if decide (b = 0) then Raise ZeroDivisionError
  else Ok (a / Qc_of_Z b)%Qc.

(** [round(x)] of a float: the nearest integer, a tie going to the even
    one. *)
Definition round (x : Qc) : Z :=
  let f := Qfloor x in
  let r := (x - Qc_of_Z f)%Qc in
  if decide (r < 1 / 2)%Qc then f
  else if decide (1 / 2 < r)%Qc then f + 1
  else if Z.even f then f else f + 1.

(** [sorted] on ints. *)
Definition sorted (l : list Z) : list Z := merge_sort Z.le l.

(** [str] of an int, as [f"{k}"] prints it.  It is total here; from
    Python 3.11 on, [str] raises [ValueError] beyond 4300 digits (see
    [printable]). *)
Definition str_int (n : Z) : string := NilZero.string_of_int (Z.to_int n).

End Py.
Import Py.

(** ** [get_shift] *)

(** The loop [for key in shift_map: if x < key: return shift_map[key]],
    over the keys that remain to be visited. *)
Fixpoint get_shift_loop (todo : list Qc) (shift_map : list (Qc * Z)) (x : Qc)
  : result (option Z) :=
  match todo with
  | [] => Ok None
  | key :: todo' =>
      if decide (x < key)%Qc then
        shift ← dict_item key shift_map; Ok (Some shift)
      else get_shift_loop todo' shift_map x
  end.

Definition get_shift (shift_map : list (Qc * Z)) (x : Qc) : result (option Z) :=
  get_shift_loop (keys shift_map) shift_map x.

(** ** [midpoint] *)

(** [trials / 2 * highest_shift] is computed exactly, where the machine
    rounds each operation to the nearest float and raises [OverflowError]
    when a result does not fit one; the two agree on the inputs described
    by [midpoint_exact] below. *)
Definition midpoint (trials : Z) (shift_map : list (Qc * Z)) : result Z :=
  highest_shift ← max_int (values shift_map);
  Ok (round (Qc_of_Z trials / 2 * Qc_of_Z highest_shift)%Qc).

(** The default table of [B], [{0.5 : -1, 1 : 1}]. *)
Definition default_shift_map : list (Qc * Z) :=
  [((1 / 2)%Qc, -1); (1%Qc, 1)].

(** ** [B] *)

(** [units[i] += shift] *)
Definition units_iadd (units : list Z) (i : nat) (shift : Z) : result (list Z) :=
  match units !! i with
  | Some u => Ok (<[i := u + shift]> units)
  | None => Raise IndexError
  end.

(** The inner loop [for i in range(unit_number)], over the indices that
    remain; [randoms] is the array drawn for the current trial. *)
Fixpoint B_units (todo : list nat) (randoms : nat -> Qc)
    (shift_map : list (Qc * Z)) (units : list Z) : result (list Z) :=
  match todo with
  | [] => Ok units
  | i :: todo' =>
      let x := randoms i in
      shift ← get_shift shift_map x;
      match shift with
      | None => Raise (ValueError_shift x)
      | Some shift =>
          units' ← units_iadd units i shift;
          B_units todo' randoms shift_map units'
      end
  end.

(** [random.random(size)], called in trial [t]: an array of [size] draws,
    read by index; numpy refuses a negative size. *)
Definition random_random (random : nat -> nat -> Qc) (t : nat) (size : Z)
  : result (nat -> Qc) :=
  if decide (size < 0) then Raise ValueError_size else Ok (random t).

(** The outer loop [for _ in range(trials)], over the trials that remain. *)
Fixpoint B_trials (todo : list nat) (unit_number : Z) (random : nat -> nat -> Qc)
    (shift_map : list (Qc * Z)) (units : list Z) : result (list Z) :=
  match todo with
  | [] => Ok units
  | t :: todo' =>
      randoms ← random_random random t unit_number;
      units' ← B_units (range unit_number) randoms shift_map units;
      B_trials todo' unit_number random shift_map units'
  end.

(** [results[u] = results.get(u, 0) + 1] *)
Definition count_unit (results : list (Z * Z)) (u : Z) : list (Z * Z) :=
  dict_set u (default 0 (dict_get u results) + 1) results.

(** The loop [for u in sorted(units)] that fills [results]. *)
Definition B_population (units : list Z) : list (Z * Z) :=
  fold_left count_unit (sorted units) [].

Definition B (unit_number trials : Z) (shift_map : list (Qc * Z))
    (random : nat -> nat -> Qc) : result (list (Z * Z)) :=
  mid ← midpoint trials shift_map;
  let units := list_repeat mid unit_number in
  units ← B_trials (range trials) unit_number random shift_map units;
  Ok (B_population units).

(** ** [save_csv] *)

Definition newline : string := String (ascii_of_nat 10) EmptyString.

(** [f"{k},{v}\n"] *)
Definition csv_line (k v : Z) : string :=
  (str_int k ++ "," ++ str_int v ++ newline)%string.

(** The loop of [f.write] calls; [f] is what the file holds so far. *)
Fixpoint save_csv_loop (todo : list (Z * Z)) (f : string) : string :=
  match todo with
  | [] => f
  | (k, v) :: todo' => save_csv_loop todo' (f ++ csv_line k v)%string
  end.

(** The content of [filename] once [save_csv] returns: the file is opened
    for writing, so it starts empty. *)
Definition save_csv (results : list (Z * Z)) : string :=
  save_csv_loop results EmptyString.

(** ** [plot] *)

(** The comprehension [{k : v / total for k, v in results.items()}],
    adding to the dictionary [acc] under construction. *)
Fixpoint normalise_loop (todo : list (Z * Z)) (total : Z)
    (acc : list (Z * Qc)) : result (list (Z * Qc)) :=
  match todo with
  | [] => Ok acc
  | (k, v) :: todo' =>
      q ← int_truediv v total;
      normalise_loop todo' total (dict_set k q acc)
  end.

(** The step under [# Normalise]. *)
Definition plot_normalise (results : list (Z * Z)) : result (list (Z * Qc)) :=
  let total := sum_int (values results) in
  normalise_loop results total [].

Definition neighbours_either_side : Z := 3.

(** The two comprehensions that collect the neighbours of [k]: the
    values of [results.get(k + i)] that are not [None]. *)
Definition neighbours_of (results : list (Z * Qc)) (k : Z) : list Qc :=
  let neighbours :=
    map (fun i => dict_get (k + i) results)
        (range2 (- neighbours_either_side) (neighbours_either_side + 1)) in
  omap id neighbours.

(** The body of the smoothing loop for the key [k]: it reads and writes
    the one dictionary [results]. *)
Definition smooth_step (results : list (Z * Qc)) (k : Z) : result (list (Z * Qc)) :=
  let neighbours := neighbours_of results k in
  average ← float_truediv (sum_float neighbours) (Z.of_nat (length neighbours));
  Ok (dict_set k average results).

(** The loop [for k, _ in results.items()], over the keys that remain.  The
    body only assigns to keys that are present, so the dictionary keeps its
    keys and their order while it is being iterated. *)
Fixpoint smooth_loop (todo : list Z) (results : list (Z * Qc))
  : result (list (Z * Qc)) :=
  match todo with
  | [] => Ok results
  | k :: todo' =>
      results' ← smooth_step results k;
      smooth_loop todo' results'
  end.

(** The step under [# Smooth with a neighbouring average]. *)
Definition plot_smooth (results : list (Z * Qc)) : result (list (Z * Qc)) :=
  smooth_loop (keys results) results.

(** [plot], up to the rendering: the result is the pair of sequences
    handed to [pyplot.plot]. *)
Definition plot (results : list (Z * Z)) : result (list Z * list Qc) :=
  results ← plot_normalise results;
  results ← plot_smooth results;
  Ok (keys results, values results).

(** The smoothing that the specification describes, for comparison: every
    average is taken over a snapshot of the mapping made before the loop. *)
Definition smooth_snapshot_step (source : list (Z * Qc))
    (results : list (Z * Qc)) (k : Z) : result (list (Z * Qc)) :=
  let neighbours := neighbours_of source k in
  average ← float_truediv (sum_float neighbours) (Z.of_nat (length neighbours));
  Ok (dict_set k average results).

Fixpoint smooth_snapshot_loop (todo : list Z) (source results : list (Z * Qc))
  : result (list (Z * Qc)) :=
  match todo with
  | [] => Ok results
  | k :: todo' =>
      results' ← smooth_snapshot_step source results k;
      smooth_snapshot_loop todo' source results'
  end.

Definition smooth_snapshot (density : list (Z * Qc)) : result (list (Z * Qc)) :=
  smooth_snapshot_loop (keys density) density density.

(** ** [main] *)

(** The table of [main].  Its thresholds are the floats that [1 / 6],
    [2 / 6], ... evaluate to: [3 / 6] and [6 / 6] are exactly 0.5 and 1.0,
    the others are the doubles nearest to the fractions, written here as
    their exact values [m / 2^e]. *)
Definition main_shift_map : list (Qc * Z) :=
  [ (Q2Qc (6004799503160661 # 36028797018963968), -3);
    (Q2Qc (6004799503160661 # 18014398509481984), -2);
    (Q2Qc (1 # 2), -1);
    (Q2Qc (6004799503160661 # 9007199254740992), 1);
    (Q2Qc (7505999378950827 # 9007199254740992), 2);
    (1%Qc, 3) ].

(** The value that [main] binds to [results]. *)
Definition main (random : nat -> nat -> Qc) : result (list (Z * Z)) :=
  B 10000 50 main_shift_map random.

(** ** Notions used in the statements *)

(** What the loop of [get_shift] computes, read off the entries: the step
    of the first entry whose threshold is strictly above [x]. *)
Fixpoint first_above (shift_map : list (Qc * Z)) (x : Qc) : option Z :=
  match shift_map with
  | [] => None
  | (key, shift) :: rest =>
      if decide (x < key)%Qc then Some shift else first_above rest x
  end.

(** The reading of the docstring of [get_shift] and of the testable
    property: the step of the first entry whose threshold is greater than
    or equal to [x]. *)
Fixpoint first_at_least (shift_map : list (Qc * Z)) (x : Qc) : option Z :=
  match shift_map with
  | [] => None
  | (key, shift) :: rest =>
      if decide (x ≤ key)%Qc then Some shift else first_at_least rest x
  end.

(** A well-formed table: thresholds in ascending iteration order, the last
    one equal to [1.0]. *)
Definition well_formed_table (shift_map : list (Qc * Z)) : Prop :=
  StronglySorted Qclt (keys shift_map) /\ last (keys shift_map) = Some 1%Qc.

(** A draw is resolved when some threshold of the table is above it. *)
Definition resolved (shift_map : list (Qc * Z)) (x : Qc) : Prop :=
  is_Some (first_above shift_map x).

#[global] Instance resolved_dec shift_map x : Decision (resolved shift_map x).
Proof. unfold resolved. apply _. Defined.

(** The nearest integer to [n / 2], a tie going to the even one. *)
Definition half_even (n : Z) : Z :=
  let q := n `div` 2 in
  if Z.even n then q else if Z.even q then q else q + 1.

(** The density of one entry. *)
Definition density_of (total : Z) (entry : Z * Z) : Z * Qc :=
  (entry.1, (Qc_of_Z entry.2 / Qc_of_Z total)%Qc).

(** The lines that [save_csv] writes, one for each entry, in the order of
    the entries. *)
Definition csv_lines (results : list (Z * Z)) : list string :=
  map (fun entry => csv_line entry.1 entry.2) results.

(** The population of [B] after [t] whole trials and the first [i] units
    of the next one. *)
Definition B_progress (unit_number trials : Z) (shift_map : list (Qc * Z))
    (random : nat -> nat -> Qc) (t i : nat) : result (list Z) :=
  mid ← midpoint trials shift_map;
  units ← B_trials (seq 0 t) unit_number random shift_map (list_repeat mid unit_number);
  B_units (seq 0 i) (random t) shift_map units.

(** The step that a draw receives from the table: that of the first
    threshold above it, and 0 for a draw that no threshold exceeds (a draw
    that stops [B]). *)
Definition step_of (shift_map : list (Qc * Z)) (x : Qc) : Z :=
  default 0 (first_above shift_map x).

(** The sum of the steps that unit [i] receives in the trials [0 .. t-1]. *)
Fixpoint walk (shift_map : list (Qc * Z)) (random : nat -> nat -> Qc)
    (t i : nat) : Z :=
  match t with
  | O => 0
  | S t' => walk shift_map random t' i + step_of shift_map (random t' i)
  end.

(** The number of units at position [u]. *)
Definition occurrences (u : Z) (units : list Z) : Z :=
  Z.of_nat (length (filter (fun v => v = u) units)).

(** The inputs on which the float arithmetic of [midpoint] is exact.
    An int of magnitude at most [2^53] converts to a float without
    rounding, so [trials / 2] and the conversion of the largest step are
    exact; their product is the half of an int of magnitude at most
    [2^53], which is a float too, so the multiplication is exact and
    nothing overflows.  On these inputs the exact arithmetic of [midpoint]
    is the arithmetic of the machine. *)
Definition midpoint_exact (trials : Z) (shift_map : list (Qc * Z)) : Prop :=
  Z.abs trials <= 2 ^ 53 /\
  (forall highest,
      max_int (values shift_map) = Ok highest ->
      Z.abs highest <= 2 ^ 53 /\ Z.abs (trials * highest) <= 2 ^ 53).

(** A table whose largest step converts to a float without
    [OverflowError] (a bound that is sufficient for it). *)
Definition highest_shift_finite (shift_map : list (Qc * Z)) : Prop :=
  forall highest,
    max_int (values shift_map) = Ok highest -> Z.abs highest < 2 ^ 1023.

(** The ints that [str] prints on every version of Python: those of at
    most 4300 digits. *)
Definition printable (n : Z) : Prop := Z.abs n < 10 ^ 4300.

(** The number of occurrences of the character [c] in a text. *)
Fixpoint count_char (c : ascii) (s : string) : nat :=
  match s with
  | EmptyString => 0
  | String c' s' => (if Ascii.eqb c' c then 1 else 0) + count_char c s'
  end.

(** The text [<position>,<count>] and a line break for every entry, in
    the order of the entries, spelled out without the loop of
    [save_csv]. *)
Fixpoint csv_text (results : list (Z * Z)) : string :=
  match results with
  | [] => EmptyString
  | (k, v) :: rest =>
      (str_int k ++ "," ++ str_int v ++ newline ++ csv_text rest)%string
  end.

(** The separators of the file: the comma and the line break. *)
Definition separator (c : ascii) : Prop := c = ","%char \/ c = ascii_of_nat 10.

(** * Properties *)

#[global] Instance exn_eq_dec : EqDecision exn.
Proof. solve_decision. Defined.

#[global] Instance result_eq_dec {A : Type} `{EqDecision A} : EqDecision (result A).
Proof. solve_decision. Defined.

(** ** Dictionaries *)

Section DictFacts.
Context {K : Type} `{EqDecision K} {V : Type}.
Implicit Types (k : K) (v : V) (d : list (K * V)).

Lemma dict_get_elem_of k d : k ∈ keys d -> is_Some (dict_get k d).
Proof.
  induction d as [|[k' v'] d IH]; simpl.
  - intros Hk. inversion Hk.
  - intros Hk. destruct (decide (k' = k)) as [->|Hne]; [eauto|].
    apply IH. apply elem_of_cons in Hk as [Hk|Hk]; [congruence|done].
Qed.

Lemma dict_get_None k d : k ∉ keys d -> dict_get k d = None.
Proof.
  induction d as [|[k' v'] d IH]; simpl; [done|].
  intros Hk. apply not_elem_of_cons in Hk as [Hne Hk].
  destruct (decide (k' = k)); [congruence|auto].
Qed.

Lemma dict_get_app_notin k d1 d2 :
  k ∉ keys d1 -> dict_get k (d1 ++ d2) = dict_get k d2.
Proof.
  induction d1 as [|[k' v'] d1 IH]; simpl; [done|].
  intros Hk. apply not_elem_of_cons in Hk as [Hne Hk].
  destruct (decide (k' = k)); [congruence|auto].
Qed.

(** Assigning to a key that is present keeps the keys and their order. *)
Lemma keys_dict_set_elem_of k v d : k ∈ keys d -> keys (dict_set k v d) = keys d.
Proof.
  induction d as [|[k' v'] d IH]; simpl.
  - intros Hk. inversion Hk.
  - intros Hk. destruct (decide (k' = k)) as [->|Hne]; simpl; [done|].
    f_equal. apply IH. apply elem_of_cons in Hk as [Hk|Hk]; [congruence|done].
Qed.

(** Assigning to a new key appends it. *)
Lemma dict_set_notin k v d : k ∉ keys d -> dict_set k v d = d ++ [(k, v)].
Proof.
  induction d as [|[k' v'] d IH]; simpl; [done|].
  intros Hk. apply not_elem_of_cons in Hk as [Hne Hk].
  destruct (decide (k' = k)); [congruence|]. by rewrite IH.
Qed.

Lemma keys_app d1 d2 : keys (d1 ++ d2) = keys d1 ++ keys d2.
Proof. apply map_app. Qed.
End DictFacts.

(** ** Sums *)

Lemma sum_int_from (l : list Z) (a : Z) : fold_left Z.add l a = a + sum_int l.
Proof.
  unfold sum_int. revert a. induction l as [|x l IH]; intros a; simpl; [lia|].
  rewrite (IH (a + x)), (IH (0 + x)). lia.
Qed.

Lemma sum_int_cons (x : Z) (l : list Z) : sum_int (x :: l) = x + sum_int l.
Proof. unfold sum_int at 1. simpl. apply sum_int_from. Qed.

Lemma sum_int_app (l1 l2 : list Z) : sum_int (l1 ++ l2) = sum_int l1 + sum_int l2.
Proof.
  induction l1 as [|x l1 IH]; simpl; [done|].
  rewrite !sum_int_cons, IH. lia.
Qed.

Lemma sum_float_from (l : list Qc) (a : Qc) :
  fold_left Qcplus l a = (a + sum_float l)%Qc.
Proof.
  unfold sum_float. revert a. induction l as [|x l IH]; intros a; simpl.
  - by rewrite Qcplus_0_r.
  - rewrite (IH (a + x)%Qc), (IH (0 + x)%Qc), Qcplus_0_l. by rewrite Qcplus_assoc.
Qed.

Lemma sum_float_cons (x : Qc) (l : list Qc) :
  sum_float (x :: l) = (x + sum_float l)%Qc.
Proof.
  unfold sum_float at 1. simpl. by rewrite sum_float_from, Qcplus_0_l.
Qed.

(** ** [get_shift] *)

Lemma get_shift_loop_first_above (seen rest : list (Qc * Z)) (x : Qc) :
  Forall (fun key => ~ (x < key)%Qc) (keys seen) ->
  get_shift_loop (keys rest) (seen ++ rest) x = Ok (first_above rest x).
Proof.
  revert seen. induction rest as [|[key shift] rest IH]; intros seen Hseen; simpl.
  - done.
  - destruct (decide (x < key)%Qc) as [Hlt|Hge].
    + unfold dict_item. rewrite dict_get_app_notin.
      * simpl. by rewrite decide_True.
      * intros Hin. rewrite Forall_forall in Hseen. by apply (Hseen key).
    + replace (seen ++ (key, shift) :: rest) with ((seen ++ [(key, shift)]) ++ rest)
        by (by rewrite <- app_assoc).
      apply IH. rewrite keys_app. apply Forall_app. split; [done|].
      by repeat constructor.
Qed.

(** [get_shift] never raises: indexing by a key that the iteration has
    just produced cannot fail. *)
Lemma get_shift_first_above (shift_map : list (Qc * Z)) (x : Qc) :
  get_shift shift_map x = Ok (first_above shift_map x).
Proof. apply (get_shift_loop_first_above [] shift_map x). constructor. Qed.

Lemma first_above_None (shift_map : list (Qc * Z)) (x : Qc) :
  first_above shift_map x = None <->
  forall key, key ∈ keys shift_map -> ~ (x < key)%Qc.
Proof.
  induction shift_map as [|[key shift] rest IH]; simpl.
  - split; [|done]. intros _ key Hkey. inversion Hkey.
  - destruct (decide (x < key)%Qc) as [Hlt|Hge].
    + split; [done|]. intros Hall. exfalso. apply (Hall key); [left|done].
    + rewrite IH. split.
      * intros Hall key' Hkey'. apply elem_of_cons in Hkey' as [->|Hkey']; auto.
      * intros Hall key' Hkey'. apply Hall. by right.
Qed.

(** On a well-formed table every draw strictly below [1.0], which is where
    [random.random] draws, is resolved. *)
Lemma get_shift_below_one (shift_map : list (Qc * Z)) (x : Qc) :
  well_formed_table shift_map -> (x < 1)%Qc ->
  exists shift, get_shift shift_map x = Ok (Some shift).
Proof.
  intros [_ Hlast] Hx. rewrite get_shift_first_above.
  destruct (first_above shift_map x) as [shift|] eqn:Hfirst; [eauto|].
  exfalso. rewrite first_above_None in Hfirst. apply (Hfirst 1%Qc); [|done].
  apply last_Some in Hlast as [l' ->]. apply elem_of_app. right. left.
Qed.

(** ** The loops of [B] *)

Lemma units_iadd_Ok (units : list Z) (i : nat) (shift : Z) :
  (i < length units)%nat ->
  exists units', units_iadd units i shift = Ok units' /\ length units' = length units.
Proof.
  intros Hi. unfold units_iadd.
  destruct (lookup_lt_is_Some_2 units i Hi) as [u ->].
  eexists. split; [done|]. apply length_insert.
Qed.

Section Loops.
Variable shift_map : list (Qc * Z).

(** The inner loop: it either updates every listed unit and keeps the
    length of the population, or stops at a draw that is not resolved and
    raises the [ValueError] that names it. *)
Lemma B_units_outcome (todo : list nat) (randoms : nat -> Qc) (units : list Z) :
  Forall (fun i => (i < length units)%nat) todo ->
  match B_units todo randoms shift_map units with
  | Ok units' =>
      length units' = length units /\
      Forall (fun i => resolved shift_map (randoms i)) todo
  | Raise e =>
      exists i, i ∈ todo /\ ~ resolved shift_map (randoms i) /\
                e = ValueError_shift (randoms i)
  end.
Proof.
  revert units. induction todo as [|i todo IH]; intros units Htodo; simpl.
  - by split.
  - apply Forall_cons in Htodo as [Hi Htodo].
    rewrite get_shift_first_above. simpl.
    destruct (first_above shift_map (randoms i)) as [shift|] eqn:Hshift.
    + destruct (units_iadd_Ok units i shift Hi) as (units' & -> & Hlen). simpl.
      rewrite <- Hlen in Htodo. specialize (IH units' Htodo).
      destruct (B_units todo randoms shift_map units') as [units''|e].
      * destruct IH as [Hlen' Hall]. split; [congruence|].
        constructor; [|done]. unfold resolved. rewrite Hshift. eauto.
      * destruct IH as (j & Hj & Hres & ->). exists j.
        split; [by right|done].
    + exists i. split; [left|]. split; [|done].
      unfold resolved. rewrite Hshift. by intros [? ?].
Qed.

Lemma range_lt (n : Z) (units : list Z) :
  length units = Z.to_nat n ->
  Forall (fun i => (i < length units)%nat) (range n).
Proof.
  intros ->. unfold range. apply Forall_forall. intros i Hi.
  apply elem_of_seq in Hi. lia.
Qed.

Lemma elem_of_range (i : nat) (n : Z) : i ∈ range n <-> (i < Z.to_nat n)%nat.
Proof. unfold range. rewrite elem_of_seq. lia. Qed.

(** The outer loop, in the same way. *)
Lemma B_trials_outcome (todo : list nat) (unit_number : Z)
    (random : nat -> nat -> Qc) (units : list Z) :
  length units = Z.to_nat unit_number ->
  match B_trials todo unit_number random shift_map units with
  | Ok units' =>
      length units' = length units /\
      (todo <> [] -> 0 <= unit_number) /\
      forall t i, t ∈ todo -> (i < Z.to_nat unit_number)%nat ->
                  resolved shift_map (random t i)
  | Raise e =>
      (unit_number < 0 /\ e = ValueError_size) \/
      exists t i, t ∈ todo /\ (i < Z.to_nat unit_number)%nat /\
                  ~ resolved shift_map (random t i) /\
                  e = ValueError_shift (random t i)
  end.
Proof.
  revert units. induction todo as [|t todo IH]; intros units Hlen; simpl.
  - split; [done|]. split; [done|]. intros t i Ht. inversion Ht.
  - unfold random_random.
    destruct (decide (unit_number < 0)) as [Hneg|Hpos]; simpl; [by left|].
    pose proof (B_units_outcome (range unit_number) (random t) units
                  (range_lt _ _ Hlen)) as Hinner.
    destruct (B_units (range unit_number) (random t) shift_map units)
      as [units'|e]; simpl.
    + destruct Hinner as [Hlen' Hall].
      assert (length units' = Z.to_nat unit_number) as Hlen'' by congruence.
      specialize (IH units' Hlen'').
      destruct (B_trials todo unit_number random shift_map units') as [units''|e].
      * destruct IH as (Hlen3 & _ & Hrest). split; [congruence|].
        split; [lia|].
        intros t' i Ht' Hi. apply elem_of_cons in Ht' as [->|Ht']; [|by auto].
        rewrite Forall_forall in Hall. apply Hall. by apply elem_of_range.
      * destruct IH as [[Hneg _]|(t' & i & Ht' & Hi & Hres & ->)]; [lia|].
        right. exists t', i. split; [by right|done].
    + destruct Hinner as (i & Hi & Hres & ->). right. exists t, i.
      split; [left|]. split; [by apply elem_of_range|done].
Qed.

(** Running a loop over a longer list of trials (resp. units) passes
    through the result of the loop over each prefix. *)
Lemma B_units_app (todo1 todo2 : list nat) (randoms : nat -> Qc) (units : list Z) :
  B_units (todo1 ++ todo2) randoms shift_map units =
  units' ← B_units todo1 randoms shift_map units;
  B_units todo2 randoms shift_map units'.
Proof.
  revert units. induction todo1 as [|i todo1 IH]; intros units; simpl; [done|].
  destruct (get_shift shift_map (randoms i)) as [[shift|]|e]; simpl; try done.
  destruct (units_iadd units i shift) as [units'|e]; simpl; [|done].
  apply IH.
Qed.

Lemma B_trials_app (todo1 todo2 : list nat) (unit_number : Z)
    (random : nat -> nat -> Qc) (units : list Z) :
  B_trials (todo1 ++ todo2) unit_number random shift_map units =
  units' ← B_trials todo1 unit_number random shift_map units;
  B_trials todo2 unit_number random shift_map units'.
Proof.
  revert units. induction todo1 as [|t todo1 IH]; intros units; simpl; [done|].
  destruct (random_random random t unit_number) as [randoms|e]; simpl; [|done].
  destruct (B_units (range unit_number) randoms shift_map units)
    as [units'|e]; simpl; [|done].
  apply IH.
Qed.
End Loops.

(** ** Completed runs of [B] *)

Lemma bind_Ok_inv {A B : Type} (m : result A) (k : A -> result B) (b : B) :
  m ≫= k = Ok b -> exists a, m = Ok a /\ k a = Ok b.
Proof. destruct m as [a|e]; simpl; [eauto|done]. Qed.

(** The parts of a completed run of [B]. *)
Lemma B_Ok_inv (unit_number trials : Z) (shift_map : list (Qc * Z))
    (random : nat -> nat -> Qc) (results : list (Z * Z)) :
  B unit_number trials shift_map random = Ok results ->
  exists mid units,
    midpoint trials shift_map = Ok mid /\
    B_trials (range trials) unit_number random shift_map
      (list_repeat mid unit_number) = Ok units /\
    length units = Z.to_nat unit_number /\
    results = B_population units.
Proof.
  unfold B. intros HB.
  apply bind_Ok_inv in HB as (mid & Hmid & HB).
  apply bind_Ok_inv in HB as (units & Hunits & HB).
  exists mid, units. repeat split; [done|done| |congruence].
  pose proof (B_trials_outcome shift_map (range trials) unit_number random
                (list_repeat mid unit_number)) as Hout.
  rewrite Hunits in Hout. unfold list_repeat in Hout.
  rewrite length_replicate in Hout. by destruct (Hout eq_refl) as [-> _].
Qed.

(** ** The histogram built by [B] *)

Lemma count_unit_sum (results : list (Z * Z)) (u : Z) :
  sum_int (values (count_unit results u)) = sum_int (values results) + 1.
Proof.
  unfold count_unit.
  assert (forall c, sum_int (values (dict_set u (default 0 (dict_get u results) + c) results))
                    = sum_int (values results) + c) as Hgen; [|apply Hgen].
  induction results as [|[k n] results IH]; intros c; simpl.
  - rewrite sum_int_cons. unfold sum_int. simpl. lia.
  - destruct (decide (k = u)) as [->|Hne]; simpl.
    + rewrite !sum_int_cons. lia.
    + rewrite !sum_int_cons, IH. lia.
Qed.

Lemma count_loop_sum (todo : list Z) (results : list (Z * Z)) :
  sum_int (values (fold_left count_unit todo results))
  = sum_int (values results) + Z.of_nat (length todo).
Proof.
  revert results. induction todo as [|u todo IH]; intros results; simpl; [lia|].
  rewrite IH, count_unit_sum. lia.
Qed.

Lemma length_sorted (l : list Z) : length (sorted l) = length l.
Proof. unfold sorted. by rewrite merge_sort_Permutation. Qed.

(** The counts of the histogram add up to the size of the population. *)
Lemma B_population_sum (units : list Z) :
  sum_int (values (B_population units)) = Z.of_nat (length units).
Proof.
  unfold B_population. rewrite count_loop_sum, length_sorted.
  unfold sum_int. simpl. lia.
Qed.

Lemma keys_count_unit (results : list (Z * Z)) (u : Z) :
  keys (count_unit results u)
  = if decide (u ∈ keys results) then keys results else keys results ++ [u].
Proof.
  unfold count_unit. destruct (decide (u ∈ keys results)) as [Hin|Hnotin].
  - by apply keys_dict_set_elem_of.
  - rewrite dict_set_notin by done. by rewrite keys_app.
Qed.

Lemma StronglySorted_lt_snoc (l : list Z) (u : Z) :
  StronglySorted Z.lt l -> Forall (fun k => k < u) l ->
  StronglySorted Z.lt (l ++ [u]).
Proof.
  intros Hl Hlt. apply StronglySorted_app_2; [|done|repeat constructor].
  intros k1 k2 Hk1 Hk2. apply list_elem_of_singleton in Hk2 as ->.
  rewrite Forall_forall in Hlt. auto.
Qed.

(** Counting an ascending sequence into a dictionary whose keys are
    ascending and not above the sequence keeps the keys ascending. *)
Lemma count_loop_sorted (todo : list Z) (results : list (Z * Z)) :
  StronglySorted Z.le todo ->
  StronglySorted Z.lt (keys results) ->
  Forall (fun k => Forall (fun u => k <= u) todo) (keys results) ->
  StronglySorted Z.lt (keys (fold_left count_unit todo results)).
Proof.
  revert results. induction todo as [|u todo IH]; intros results Htodo Hres Hle; simpl.
  - done.
  - apply StronglySorted_inv in Htodo as [Htodo Hu].
    assert (Forall (fun k => k <= u) (keys results)) as Hku.
    { eapply Forall_impl; [exact Hle|]. intros k Hk. by apply Forall_cons in Hk as [? _]. }
    assert (Forall (fun k => Forall (fun u' => k <= u') todo) (keys results)) as Hktodo.
    { eapply Forall_impl; [exact Hle|]. intros k Hk. by apply Forall_cons in Hk as [_ ?]. }
    apply IH; [done| |]; rewrite keys_count_unit;
      destruct (decide (u ∈ keys results)) as [Hin|Hnotin]; try done.
    + apply StronglySorted_lt_snoc; [done|].
      rewrite Forall_forall in Hku |- *. intros k Hk.
      specialize (Hku k Hk). assert (k <> u) by (intros ->; done). lia.
    + apply Forall_app. split; [done|]. by repeat constructor.
Qed.

(** The histogram enumerates its positions in strictly ascending order. *)
Lemma B_population_sorted (units : list Z) :
  StronglySorted Z.lt (keys (B_population units)).
Proof.
  unfold B_population. apply count_loop_sorted.
  - unfold sorted. apply (StronglySorted_merge_sort Z.le).
  - constructor.
  - constructor.
Qed.

(** ** [save_csv] *)

Lemma string_app_assoc (s1 s2 s3 : string) :
  ((s1 ++ s2) ++ s3 = s1 ++ (s2 ++ s3))%string.
Proof. induction s1 as [|c s1 IH]; simpl; [done|]. by rewrite IH. Qed.

Lemma string_app_empty_r (s : string) : (s ++ "")%string = s.
Proof. induction s as [|c s IH]; simpl; [done|]. by rewrite IH. Qed.

Lemma save_csv_loop_lines (todo : list (Z * Z)) (f : string) :
  save_csv_loop todo f = (f ++ String.concat "" (csv_lines todo))%string.
Proof.
  revert f. induction todo as [|[k v] todo IH]; intros f.
  - simpl. by rewrite string_app_empty_r.
  - cbn [save_csv_loop]. rewrite IH, string_app_assoc. f_equal.
    destruct todo as [|[k' v'] todo]; [|done].
    simpl. by rewrite string_app_empty_r.
Qed.

Lemma StronglySorted_lt_NoDup (l : list Z) : StronglySorted Z.lt l -> NoDup l.
Proof.
  induction 1 as [|k l Hl IH Hk]; constructor; [|done].
  intros Hin. rewrite Forall_forall in Hk. specialize (Hk k Hin). lia.
Qed.

(** In a dictionary with distinct keys, each line is that of a key and of
    the value found under it. *)
Lemma csv_lines_keys (results : list (Z * Z)) :
  NoDup (keys results) ->
  csv_lines results
  = map (fun k => csv_line k (default 0 (dict_get k results))) (keys results).
Proof.
  induction results as [|[k v] results IH]; simpl; [done|].
  intros Hnodup. apply NoDup_cons in Hnodup as [Hk Hnodup].
  rewrite decide_True by done. simpl. f_equal.
  rewrite IH by done. apply map_ext_in. intros k' Hk'.
  rewrite decide_False; [done|]. intros ->. apply Hk. by apply list_elem_of_In.
Qed.

(** ** [round] and [midpoint] *)

Lemma Qfloor_half (n : Z) : Qfloor (Qc_of_Z n / 2)%Qc = n `div` 2.
Proof.
  rewrite Zdiv_Qdiv. apply Qfloor_comp. simpl.
  rewrite !Qred_correct. reflexivity.
Qed.

Lemma half_remainder (n : Z) :
  (Qc_of_Z n / 2 - Qc_of_Z (n `div` 2))%Qc = (Qc_of_Z (n `mod` 2) / 2)%Qc.
Proof.
  rewrite (Z.div_mod n 2) at 1 by lia.
  rewrite Z2Qc_inj_add, Z2Qc_inj_mul, Z2Qc_inj_2. field.
  intros H2. discriminate H2.
Qed.

Lemma round_half (n : Z) : round (Qc_of_Z n / 2)%Qc = half_even n.
Proof.
  unfold round, half_even. rewrite Qfloor_half, half_remainder, (Zeven_mod n).
  pose proof (Z.mod_pos_bound n 2 ltac:(lia)) as Hb.
  assert (n `mod` 2 = 0 \/ n `mod` 2 = 1) as [-> | ->] by lia.
  - by rewrite decide_True by compute_done.
  - rewrite decide_False by compute_done.
    by rewrite decide_False by compute_done.
Qed.

Lemma round_0 : round 0%Qc = 0.
Proof. reflexivity. Qed.

Lemma max_int_greatest (v : Z) (l : list Z) :
  fold_left Z.max l v ∈ v :: l /\ Forall (fun w => w <= fold_left Z.max l v) (v :: l).
Proof.
  revert v. induction l as [|w l IH]; intros v; simpl.
  - split; [left|]. by repeat constructor.
  - destruct (IH (Z.max v w)) as [Hin Hall].
    apply Forall_cons in Hall as [Hvw Hall]. split.
    + apply elem_of_cons in Hin as [Hin|Hin]; [|by do 2 right].
      rewrite Hin. destruct (Z.max_spec v w) as [[_ ->]|[_ ->]]; [right; left|left].
    + repeat constructor; [lia|lia|done].
Qed.

(** [midpoint] on a table with at least one entry: the value, in terms of
    the largest step [highest] of the table. *)
Lemma midpoint_value (trials : Z) (shift_map : list (Qc * Z)) :
  shift_map <> [] ->
  exists highest,
    highest ∈ values shift_map /\
    Forall (fun shift => shift <= highest) (values shift_map) /\
    midpoint trials shift_map
    = Ok (round (Qc_of_Z trials / 2 * Qc_of_Z highest)%Qc) /\
    midpoint trials shift_map = Ok (half_even (trials * highest)).
Proof.
  intros Hne. destruct shift_map as [|[key shift] rest]; [done|].
  unfold midpoint. simpl.
  destruct (max_int_greatest shift (values rest)) as [Hin Hall].
  exists (fold_left Z.max (values rest) shift). repeat split; try done.
  rewrite <- round_half. do 2 f_equal.
  rewrite Z2Qc_inj_mul. field. intros H2. discriminate H2.
Qed.

(** ** The normalisation of [plot] *)

Lemma normalise_loop_zero (todo : list (Z * Z)) (acc : list (Z * Qc)) :
  todo <> [] -> normalise_loop todo 0 acc = Raise ZeroDivisionError.
Proof. destruct todo as [|[k v] todo]; [done|]. intros _. reflexivity. Qed.

(** With distinct keys the comprehension adds one entry per entry of the
    histogram, in order. *)
Lemma normalise_loop_nonzero (todo : list (Z * Z)) (total : Z) (acc : list (Z * Qc)) :
  total <> 0 ->
  NoDup (keys acc ++ keys todo) ->
  normalise_loop todo total acc = Ok (acc ++ map (density_of total) todo).
Proof.
  intros Htotal. revert acc. induction todo as [|[k v] todo IH]; intros acc Hnodup; simpl.
  - by rewrite app_nil_r.
  - unfold int_truediv. rewrite decide_False by done. simpl.
    assert (k ∉ keys acc) as Hk.
    { apply NoDup_app in Hnodup as (_ & Hdisj & _). intros Hin.
      apply (Hdisj k Hin). left. }
    rewrite dict_set_notin by done. rewrite IH.
    + by rewrite <- app_assoc.
    + rewrite keys_app. simpl. by rewrite <- app_assoc.
Qed.

Lemma sum_float_density (total : Z) (results : list (Z * Z)) :
  sum_float (values (map (density_of total) results))
  = (Qc_of_Z (sum_int (values results)) / Qc_of_Z total)%Qc.
Proof.
  induction results as [|[k v] results IH]; simpl.
  - unfold sum_float, sum_int. simpl. rewrite Z2Qc_inj_0. unfold Qcdiv. ring.
  - rewrite sum_float_cons, sum_int_cons, IH, Z2Qc_inj_add. simpl.
    unfold Qcdiv. ring.
Qed.

(** ** The smoothing of [plot] *)

Lemma range2_window :
  range2 (- neighbours_either_side) (neighbours_either_side + 1)
  = [-3; -2; -1; 0; 1; 2; 3].
Proof. reflexivity. Qed.

(** A key of the dictionary is among its own neighbours. *)
Lemma neighbours_of_self (results : list (Z * Qc)) (k : Z) :
  k ∈ keys results -> neighbours_of results k <> [].
Proof.
  intros Hk. destruct (dict_get_elem_of k results Hk) as [v Hv].
  assert (v ∈ neighbours_of results k) as Hin.
  { unfold neighbours_of. apply list_elem_of_omap. exists (Some v). split; [|done].
    apply list_elem_of_fmap. exists 0. rewrite Z.add_0_r. split; [done|].
    rewrite range2_window. do 3 right. left. }
  intros Hnil. rewrite Hnil in Hin. inversion Hin.
Qed.

Lemma smooth_step_Ok (results : list (Z * Qc)) (k : Z) :
  k ∈ keys results ->
  exists results', smooth_step results k = Ok results' /\ keys results' = keys results.
Proof.
  intros Hk. unfold smooth_step, float_truediv.
  pose proof (neighbours_of_self results k Hk) as Hne.
  rewrite decide_False.
  - simpl. eexists. split; [done|]. by apply keys_dict_set_elem_of.
  - destruct (neighbours_of results k); [done|]. simpl. lia.
Qed.

Lemma smooth_loop_Ok (todo : list Z) (results : list (Z * Qc)) :
  Forall (fun k => k ∈ keys results) todo ->
  exists results', smooth_loop todo results = Ok results' /\ keys results' = keys results.
Proof.
  revert results. induction todo as [|k todo IH]; intros results Htodo; simpl.
  - by exists results.
  - apply Forall_cons in Htodo as [Hk Htodo].
    destruct (smooth_step_Ok results k Hk) as (results' & -> & Hkeys). simpl.
    rewrite <- Hkeys in Htodo. destruct (IH results' Htodo) as (results'' & -> & Hkeys').
    exists results''. split; [done|congruence].
Qed.

(** * The claims of the specification *)

(** C1.  On the well-formed default table [{0.5 : -1, 1 : 1}], [get_shift]
    compares with a strict [<]: at [x = 0.5] it returns the step [1] of the
    threshold [1], while the first threshold greater than or equal to [x]
    is [0.5], with step [-1]; and at [x = 1.0] it returns [None].  The
    docstring of [get_shift] promises the threshold greater than or equal
    to [x]. *)
Theorem get_shift_skips_equal_threshold :
  well_formed_table default_shift_map /\
  get_shift default_shift_map (1 / 2)%Qc = Ok (Some 1) /\
  first_at_least default_shift_map (1 / 2)%Qc = Some (-1) /\
  get_shift default_shift_map 1%Qc = Ok None /\
  first_at_least default_shift_map 1%Qc = Some 1.
Proof.
  split.
  - split; [|reflexivity].
    repeat constructor.
  - repeat split; compute_done.
Qed.

(** C4.  When no threshold of the table exceeds [x], [get_shift] returns
    [None], and a run of [B] in which some unit draws [x] ends in an
    exception and returns no histogram; with a table that has entries the
    exception is the [ValueError] of a draw that could not be resolved. *)
Theorem B_aborts_on_unresolved_draw (shift_map : list (Qc * Z)) (x : Qc)
    (unit_number trials : Z) (random : nat -> nat -> Qc) (t i : nat) :
  (forall key, key ∈ keys shift_map -> ~ (x < key)%Qc) ->
  (t < Z.to_nat trials)%nat -> (i < Z.to_nat unit_number)%nat ->
  random t i = x ->
  get_shift shift_map x = Ok None /\
  raises (B unit_number trials shift_map random) /\
  (shift_map <> [] ->
   exists x', B unit_number trials shift_map random = Raise (ValueError_shift x') /\
              get_shift shift_map x' = Ok None).
Proof.
  intros Hx Ht Hi Hdraw.
  assert (first_above shift_map x = None) as Hnone by (by apply first_above_None).
  split; [by rewrite get_shift_first_above, Hnone|].
  assert (forall mid, exists x',
            B_trials (range trials) unit_number random shift_map
              (list_repeat mid unit_number) = Raise (ValueError_shift x') /\
            get_shift shift_map x' = Ok None) as Hloop.
  { intros mid.
    pose proof (B_trials_outcome shift_map (range trials) unit_number random
                  (list_repeat mid unit_number)) as Hout.
    unfold list_repeat in Hout at 1. rewrite length_replicate in Hout.
    specialize (Hout eq_refl).
    destruct (B_trials (range trials) unit_number random shift_map
                (list_repeat mid unit_number)) as [units|e].
    - destruct Hout as (_ & _ & Hall). exfalso.
      assert (resolved shift_map (random t i)) as Hres
        by (apply Hall; [by apply elem_of_range|done]).
      unfold resolved in Hres. rewrite Hdraw, Hnone in Hres. by destruct Hres.
    - destruct Hout as [[Hneg _]|(t' & i' & _ & _ & Hres & ->)]; [lia|].
      eexists. split; [done|].
      rewrite get_shift_first_above. f_equal.
      unfold resolved in Hres. destruct (first_above shift_map (random t' i')); [|done].
      exfalso. apply Hres. eauto. }
  unfold B. split.
  - destruct (midpoint trials shift_map) as [mid|e]; simpl; [|done].
    destruct (Hloop mid) as (x' & -> & _). done.
  - intros Hne. destruct (midpoint_value trials shift_map Hne) as (h & _ & _ & -> & _).
    simpl. destruct (Hloop (round (Qc_of_Z trials / 2 * Qc_of_Z h)%Qc)) as (x' & -> & Hx').
    exists x'. by split.
Qed.

Lemma B_aborts_on_unresolved_draw_witness :
  get_shift default_shift_map 1%Qc = Ok None /\
  raises (B 2 3 default_shift_map (fun t i => if decide (t = 1%nat /\ i = 0%nat) then 1%Qc else 0%Qc)) /\
  (default_shift_map <> [] ->
   exists x', B 2 3 default_shift_map
                (fun t i => if decide (t = 1%nat /\ i = 0%nat) then 1%Qc else 0%Qc)
              = Raise (ValueError_shift x') /\
              get_shift default_shift_map x' = Ok None).
Proof.
  apply (B_aborts_on_unresolved_draw default_shift_map 1%Qc 2 3 _ 1%nat 0%nat).
  - intros key Hkey. unfold default_shift_map in Hkey. simpl in Hkey.
    apply elem_of_cons in Hkey as [->|Hkey]; [compute_done|].
    apply elem_of_cons in Hkey as [->|Hkey]; [compute_done|].
    inversion Hkey.
  - simpl. lia.
  - simpl. lia.
  - reflexivity.
Defined.

(** C5.  In a run of [B] that completes, with [unit_number >= 0] (so in
    particular [unit_number >= 1]) and any number of trials, the
    population has [unit_number] elements after every whole trial and
    after every unit update inside a trial, and the counts of the returned
    histogram add up to [unit_number]. *)
Theorem B_population_size (unit_number trials : Z) (shift_map : list (Qc * Z))
    (random : nat -> nat -> Qc) (results : list (Z * Z)) :
  0 <= unit_number ->
  B unit_number trials shift_map random = Ok results ->
  (forall t i : nat,
      (t < Z.to_nat trials /\ i <= Z.to_nat unit_number)%nat \/
      (t = Z.to_nat trials /\ i = 0%nat) ->
      exists units,
        B_progress unit_number trials shift_map random t i = Ok units /\
        Z.of_nat (length units) = unit_number) /\
  sum_int (values results) = unit_number.
Proof.
  intros HN HB.
  apply B_Ok_inv in HB as (mid & units & Hmid & Hunits & Hlen & ->).
  split; [|rewrite B_population_sum; lia].
  intros t i Hti. unfold B_progress. rewrite Hmid. simpl.
  assert (t <= Z.to_nat trials)%nat as Ht by lia.
  unfold range in Hunits.
  replace (Z.to_nat trials) with (t + (Z.to_nat trials - t))%nat in Hunits by lia.
  rewrite seq_app, B_trials_app in Hunits.
  apply bind_Ok_inv in Hunits as (units_t & Hunits_t & Hrest).
  rewrite Hunits_t. simpl.
  assert (length units_t = Z.to_nat unit_number) as Hlen_t.
  { pose proof (B_trials_outcome shift_map (seq 0 t) unit_number random
                  (list_repeat mid unit_number)) as Hout.
    rewrite Hunits_t in Hout. unfold list_repeat in Hout.
    rewrite length_replicate in Hout. by destruct (Hout eq_refl) as [-> _]. }
  destruct Hti as [[Htlt Hi]|[-> ->]].
  - replace (Z.to_nat trials - t)%nat with (S (Z.to_nat trials - t - 1)) in Hrest by lia.
    simpl in Hrest. unfold random_random in Hrest.
    rewrite decide_False in Hrest by lia. simpl in Hrest.
    apply bind_Ok_inv in Hrest as (units_t' & Hinner & _).
    unfold range in Hinner.
    replace (Z.to_nat unit_number) with (i + (Z.to_nat unit_number - i))%nat in Hinner by lia.
    rewrite seq_app, B_units_app in Hinner.
    apply bind_Ok_inv in Hinner as (units_ti & Hunits_ti & _).
    exists units_ti. split; [done|].
    pose proof (B_units_outcome shift_map (seq 0 i) (random t) units_t) as Hout.
    rewrite Hunits_ti in Hout. destruct Hout as [-> _]; [|lia].
    apply Forall_forall. intros j Hj. apply elem_of_seq in Hj. lia.
  - exists units_t. split; [done|lia].
Qed.

Lemma B_population_size_witness :
  (forall t i : nat,
      (t < Z.to_nat 2 /\ i <= Z.to_nat 3)%nat \/ (t = Z.to_nat 2 /\ i = 0%nat) ->
      exists units,
        B_progress 3 2 default_shift_map (fun _ _ => 0%Qc) t i = Ok units /\
        Z.of_nat (length units) = 3) /\
  sum_int (values [(-1, 3)]) = 3.
Proof.
  apply (B_population_size 3 2 default_shift_map (fun _ _ => 0%Qc) [(-1, 3)]).
  - lia.
  - reflexivity.
Defined.

(** C6.  On a table with at least one entry, and on the inputs on which
    the float arithmetic is exact ([midpoint_exact]: [trials], the largest
    step and their product of magnitude at most [2^53]), [midpoint]
    returns [round(trials / 2 * highest)], where [highest] is the largest
    step of the table; this is the integer nearest to
    [trials * highest / 2], a tie going to the even one.  On the default
    table and 100 trials it returns 50. *)
Theorem midpoint_round_highest_shift (trials : Z) (shift_map : list (Qc * Z)) :
  shift_map <> [] ->
  midpoint_exact trials shift_map ->
  (exists highest,
      highest ∈ values shift_map /\
      Forall (fun shift => shift <= highest) (values shift_map) /\
      midpoint trials shift_map
      = Ok (round (Qc_of_Z trials / 2 * Qc_of_Z highest)%Qc) /\
      midpoint trials shift_map = Ok (half_even (trials * highest))) /\
  midpoint 100 default_shift_map = Ok 50.
Proof.
  intros Hne _. split; [by apply midpoint_value|reflexivity].
Qed.

Lemma midpoint_round_highest_shift_witness :
  (exists highest,
      highest ∈ values default_shift_map /\
      Forall (fun shift => shift <= highest) (values default_shift_map) /\
      midpoint 7 default_shift_map
      = Ok (round (Qc_of_Z 7 / 2 * Qc_of_Z highest)%Qc) /\
      midpoint 7 default_shift_map = Ok (half_even (7 * highest))) /\
  midpoint 100 default_shift_map = Ok 50.
Proof.
  apply (midpoint_round_highest_shift 7 default_shift_map).
  - discriminate.
  - split; [compute_done|]. intros highest Hmax. injection Hmax as <-.
    split; compute_done.
Defined.

(** C7.  With one unit and no trial, on a table with at least one entry
    whose largest step converts to a float ([highest_shift_finite]), [B]
    returns the histogram whose only entry maps [midpoint(0, table)],
    which is 0, to the count 1. *)
Theorem B_one_unit_no_trial (shift_map : list (Qc * Z)) (random : nat -> nat -> Qc) :
  shift_map <> [] ->
  highest_shift_finite shift_map ->
  exists mid,
    midpoint 0 shift_map = Ok mid /\ mid = 0 /\
    B 1 0 shift_map random = Ok [(mid, 1)].
Proof.
  intros Hne _. destruct (midpoint_value 0 shift_map Hne) as (h & _ & _ & _ & Hmid).
  exists (half_even (0 * h)). split; [done|]. split; [reflexivity|].
  unfold B. rewrite Hmid. reflexivity.
Qed.

Lemma B_one_unit_no_trial_witness :
  exists mid,
    midpoint 0 default_shift_map = Ok mid /\ mid = 0 /\
    B 1 0 default_shift_map (fun _ _ => 0%Qc) = Ok [(mid, 1)].
Proof.
  apply (B_one_unit_no_trial default_shift_map (fun _ _ => 0%Qc)).
  - discriminate.
  - intros highest Hmax. injection Hmax as <-. compute_done.
Defined.

(** C8.  Smoothing a density with the single key [k] leaves it as it is:
    the only neighbour found in [k-3 .. k+3] is [k] itself, and the
    average of one value is that value. *)
Theorem plot_smooth_single_key (k : Z) (v : Qc) :
  neighbours_of [(k, v)] k = [v] /\
  plot_smooth [(k, v)] = Ok [(k, v)].
Proof.
  assert (neighbours_of [(k, v)] k = [v]) as Hneighbours.
  { unfold neighbours_of. rewrite range2_window. simpl.
    rewrite (decide_True (P := k = k + 0)) by lia.
    by rewrite !decide_False by lia. }
  split; [done|].
  unfold plot_smooth, smooth_step. simpl. unfold smooth_step.
  rewrite Hneighbours. unfold float_truediv. simpl.
  rewrite decide_True by done.
  rewrite sum_float_cons. unfold sum_float. simpl.
  change (Z.of_nat 1) with 1.
  rewrite Qcplus_0_r, Z2Qc_inj_1. by rewrite (right_id 1%Qc Qcdiv).
Qed.

(** C9.  The histogram returned by a completed run of [B] lists its
    positions in strictly ascending order, and [save_csv] writes one line
    [<position>,<count>] for each entry in the order of the entries, so
    the lines of the file are in ascending order of position. *)
Theorem B_results_ascending (unit_number trials : Z) (shift_map : list (Qc * Z))
    (random : nat -> nat -> Qc) (results : list (Z * Z)) :
  B unit_number trials shift_map random = Ok results ->
  StronglySorted Z.lt (keys results) /\
  save_csv results = String.concat "" (csv_lines results) /\
  csv_lines results = map (fun k => csv_line k (default 0 (dict_get k results))) (keys results).
Proof.
  intros HB. apply B_Ok_inv in HB as (mid & units & _ & _ & _ & ->).
  pose proof (B_population_sorted units) as Hsorted.
  split; [done|]. split.
  - unfold save_csv. by rewrite save_csv_loop_lines.
  - apply StronglySorted_lt_NoDup in Hsorted. by apply csv_lines_keys.
Qed.

Lemma B_results_ascending_witness :
  StronglySorted Z.lt (keys [(-1, 1); (3, 2)]) /\
  save_csv [(-1, 1); (3, 2)] = String.concat "" (csv_lines [(-1, 1); (3, 2)]) /\
  csv_lines [(-1, 1); (3, 2)]
  = map (fun k => csv_line k (default 0 (dict_get k [(-1, 1); (3, 2)])))
        (keys [(-1, 1); (3, 2)]).
Proof.
  apply (B_results_ascending 3 2 default_shift_map
           (fun t i => if decide (i = 1%nat) then 0%Qc else Q2Qc (3 # 4))).
  reflexivity.
Defined.

(** C10.  Every key of a dictionary has at least one neighbour in
    [k-3 .. k+3], itself; so the smoothing loop, which only assigns to
    keys that are present, never divides by zero: it completes and keeps
    the keys.  The same holds for [plot] once the normalisation has
    succeeded. *)
Theorem plot_smooth_never_divides_by_zero (results : list (Z * Qc)) :
  (forall k, k ∈ keys results -> (0 < length (neighbours_of results k))%nat) /\
  (exists smoothed,
      plot_smooth results = Ok smoothed /\ keys smoothed = keys results) /\
  (forall histogram,
      plot_normalise histogram = Ok results ->
      exists smoothed,
        plot histogram = Ok (keys smoothed, values smoothed) /\
        keys smoothed = keys results).
Proof.
  assert (exists smoothed,
             plot_smooth results = Ok smoothed /\ keys smoothed = keys results)
    as (smoothed & Hsmooth & Hkeys).
  { apply smooth_loop_Ok. by apply Forall_forall. }
  split; [|split].
  - intros k Hk. pose proof (neighbours_of_self results k Hk).
    destruct (neighbours_of results k); [done|simpl; lia].
  - by exists smoothed.
  - intros histogram Hnorm. exists smoothed. unfold plot.
    rewrite Hnorm. simpl. rewrite Hsmooth. simpl. by split.
Qed.

(** C2.  The smoothing loop of [plot] reads the dictionary that it is
    writing.  For the histogram [{0: 1, 1: 3}], whose density is
    [{0: 1/4, 1: 3/4}], the value written for key 1 is [5/8], the average
    of the value [1/2] already written for key 0 and of [3/4]; the average
    of the values before smoothing is [1/2]. *)
Theorem plot_smooth_uses_smoothed_values :
  let density := [(0, Q2Qc (1 # 4)); (1, Q2Qc (3 # 4))] in
  plot_normalise [(0, 1); (1, 3)] = Ok density /\
  plot_smooth density = Ok [(0, Q2Qc (1 # 2)); (1, Q2Qc (5 # 8))] /\
  smooth_snapshot density = Ok [(0, Q2Qc (1 # 2)); (1, Q2Qc (1 # 2))] /\
  plot_smooth density <> smooth_snapshot density.
Proof. repeat split; compute_done. Qed.

(** C3, as the code has it.  On a histogram (a dictionary, so with
    distinct keys) the normalisation of [plot] raises [ZeroDivisionError]
    when the counts add up to zero and there is an entry; on the empty
    histogram it returns the empty mapping; and when the counts do not add
    up to zero it returns the mapping of every position to its count
    divided by the total, whose values add up to 1. *)
Theorem plot_normalise_outcome (results : list (Z * Z)) :
  NoDup (keys results) ->
  let total := sum_int (values results) in
  plot_normalise results
  = (if decide (total = 0) then
       if decide (results = []) then Ok [] else Raise ZeroDivisionError
     else Ok (map (density_of total) results)) /\
  (total <> 0 -> sum_float (values (map (density_of total) results)) = 1%Qc).
Proof.
  intros Hnodup total. split.
  - unfold plot_normalise. fold total. destruct (decide (total = 0)) as [->|Htotal].
    + destruct (decide (results = [])) as [->|Hne]; [done|].
      by apply normalise_loop_zero.
    + by rewrite normalise_loop_nonzero.
  - intros Htotal. rewrite sum_float_density. fold total.
    apply Qcmult_inv_r. intros Hz. apply Htotal.
    apply Z2Qc_inj. by rewrite Z2Qc_inj_0.
Qed.

Lemma plot_normalise_outcome_witness :
  NoDup (keys [(0, 1); (1, 3)]) /\
  plot_normalise [(0, 1); (1, 3)] = Ok (map (density_of 4) [(0, 1); (1, 3)]) /\
  sum_float (values (map (density_of 4) [(0, 1); (1, 3)])) = 1%Qc.
Proof.
  assert (NoDup (keys [(0, 1); (1, 3)])) as Hnodup by compute_done.
  split; [exact Hnodup|].
  destruct (plot_normalise_outcome [(0, 1); (1, 3)] Hnodup) as [Hnorm Hsum].
  split; [exact Hnorm|]. apply Hsum. discriminate.
Defined.

(** C3, where the claim fails: the counts of the empty histogram add up
    to zero, and the normalisation returns the empty mapping without
    raising. *)
Lemma plot_normalise_empty_histogram :
  sum_int (values ([] : list (Z * Z))) = 0 /\
  plot_normalise [] = Ok [] /\
  ~ raises (plot_normalise []).
Proof. repeat split. intros []. Qed.

(** * Further properties of the code *)

(** ** [get_shift] *)

Lemma resolved_iff (shift_map : list (Qc * Z)) (x : Qc) :
  resolved shift_map x <-> exists key, key ∈ keys shift_map /\ (x < key)%Qc.
Proof.
  unfold resolved. split.
  - intros [shift Hshift].
    destruct (decide (Exists (fun key => x < key)%Qc (keys shift_map))) as [Hex|Hnex].
    + apply Exists_exists in Hex as (key & Hkey & Hlt). eauto.
    + assert (first_above shift_map x = None) as Hnone; [|congruence].
      apply first_above_None. intros key Hkey Hlt. apply Hnex.
      apply Exists_exists. eauto.
  - intros (key & Hkey & Hlt).
    destruct (first_above shift_map x) as [shift|] eqn:Hfirst; [eauto|].
    exfalso. rewrite first_above_None in Hfirst. by apply (Hfirst key).
Qed.

(** Where the step of [first_above] comes from: the entries before it have
    no threshold above [x]. *)
Lemma first_above_Some (shift_map : list (Qc * Z)) (x : Qc) (shift : Z) :
  first_above shift_map x = Some shift ->
  exists seen key rest,
    shift_map = seen ++ (key, shift) :: rest /\ (x < key)%Qc /\
    Forall (fun key' => ~ (x < key')%Qc) (keys seen).
Proof.
  induction shift_map as [|[key s] rest IH]; simpl; [done|].
  destruct (decide (x < key)%Qc) as [Hlt|Hge].
  - intros [= ->]. exists [], key, rest. repeat split; [done|constructor].
  - intros Hfirst. destruct (IH Hfirst) as (seen & key' & rest' & -> & Hlt & Hseen).
    exists ((key, s) :: seen), key', rest'. repeat split; [done|].
    simpl. by constructor.
Qed.

(** X1.  [get_shift] never raises, and it returns [None] exactly when no
    threshold of the table is strictly above [x]; in particular it
    returns [None] on the empty table. *)
Theorem get_shift_None_iff (shift_map : list (Qc * Z)) (x : Qc) :
  (exists found, get_shift shift_map x = Ok found) /\
  (get_shift shift_map x = Ok None <->
   forall key, key ∈ keys shift_map -> ~ (x < key)%Qc).
Proof.
  rewrite get_shift_first_above. split; [eauto|].
  rewrite <- first_above_None. split; [congruence|by intros ->].
Qed.

(** X2.  On a table whose thresholds ascend in iteration order, the step
    that [get_shift] returns is the one stored under the least threshold
    strictly above [x]. *)
Theorem get_shift_least_threshold (shift_map : list (Qc * Z)) (x : Qc) (shift : Z) :
  StronglySorted Qclt (keys shift_map) ->
  get_shift shift_map x = Ok (Some shift) ->
  exists key,
    (key, shift) ∈ shift_map /\ (x < key)%Qc /\
    forall key', key' ∈ keys shift_map -> (x < key')%Qc -> (key <= key')%Qc.
Proof.
  intros Hsorted Hget. rewrite get_shift_first_above in Hget.
  injection Hget as Hfirst.
  apply first_above_Some in Hfirst as (seen & key & rest & -> & Hlt & Hseen).
  exists key. split; [apply elem_of_app; right; left|]. split; [done|].
  intros key' Hkey' Hlt'. rewrite keys_app in Hkey', Hsorted. simpl in *.
  apply elem_of_app in Hkey' as [Hkey'|Hkey'].
  - rewrite Forall_forall in Hseen. by destruct (Hseen key' Hkey').
  - apply StronglySorted_app_1_r in Hsorted.
    apply StronglySorted_inv in Hsorted as [_ Hall].
    apply elem_of_cons in Hkey' as [->|Hkey']; [apply Qcle_refl|].
    rewrite Forall_forall in Hall. apply Qclt_le_weak. by apply Hall.
Qed.

Lemma get_shift_least_threshold_witness :
  exists key,
    (key, 1) ∈ default_shift_map /\ (Q2Qc (3 # 4) < key)%Qc /\
    forall key', key' ∈ keys default_shift_map -> (Q2Qc (3 # 4) < key')%Qc ->
                 (key <= key')%Qc.
Proof.
  apply (get_shift_least_threshold default_shift_map (Q2Qc (3 # 4)) 1).
  - repeat constructor.
  - reflexivity.
Defined.

(** ** [midpoint] *)

Lemma half_even_nearest (n : Z) : -1 <= 2 * half_even n - n <= 1.
Proof.
  unfold half_even. cbv zeta. pose proof (Z.div_mod n 2 ltac:(lia)) as Hn.
  pose proof (Z.mod_pos_bound n 2 ltac:(lia)) as Hb.
  pose proof (Zmod_even n) as Hmod.
  destruct (Z.even n); [lia|].
  destruct (Z.even (n `div` 2)); lia.
Qed.

(** X3.  [midpoint] raises the [ValueError] of [max] exactly on the empty
    table.  On a table with an entry, and on the inputs on which the float
    arithmetic is exact ([midpoint_exact]), it returns an integer within
    one half of [trials * highest / 2], [highest] being the largest step;
    when [trials] is even it is exactly [(trials / 2) * highest]. *)
Theorem midpoint_outcome (trials : Z) (shift_map : list (Qc * Z)) :
  (midpoint trials shift_map = Raise ValueError_max <-> shift_map = []) /\
  (shift_map <> [] -> midpoint_exact trials shift_map ->
   exists highest mid,
     midpoint trials shift_map = Ok mid /\
     highest ∈ values shift_map /\
     Forall (fun shift => shift <= highest) (values shift_map) /\
     -1 <= 2 * mid - trials * highest <= 1 /\
     (Z.even trials = true -> mid = trials `div` 2 * highest)).
Proof.
  split.
  - split; [|by intros ->].
    destruct shift_map as [|[key shift] rest]; [done|discriminate].
  - intros Hne _.
    destruct (midpoint_value trials shift_map Hne) as (h & Hin & Hall & _ & Hmid).
    exists h, (half_even (trials * h)). repeat split; try done.
    + apply half_even_nearest.
    + apply half_even_nearest.
    + intros Heven. unfold half_even. cbv zeta. rewrite Z.even_mul, Heven. simpl.
      rewrite Zeven_mod in Heven. apply Z.eqb_eq in Heven.
      pose proof (Z.div_mod trials 2 ltac:(lia)) as Ht.
      replace (trials * h) with (trials `div` 2 * h * 2) by lia.
      by rewrite Z.div_mul.
Qed.

(** ** When [B] completes *)

Lemma length_list_repeat {A : Type} (x : A) (n : Z) :
  length (list_repeat x n) = Z.to_nat n.
Proof. unfold list_repeat. apply length_replicate. Qed.

(** The trial loop completes exactly when [random.random] accepts the
    size and every draw that the loop reads is resolved. *)
Lemma B_trials_Ok_iff (shift_map : list (Qc * Z)) (todo : list nat)
    (unit_number : Z) (random : nat -> nat -> Qc) (units : list Z) :
  length units = Z.to_nat unit_number ->
  (exists units', B_trials todo unit_number random shift_map units = Ok units') <->
  (todo <> [] -> 0 <= unit_number) /\
  (forall t i, t ∈ todo -> (i < Z.to_nat unit_number)%nat ->
               resolved shift_map (random t i)).
Proof.
  intros Hlen.
  pose proof (B_trials_outcome shift_map todo unit_number random units Hlen) as Hout.
  destruct (B_trials todo unit_number random shift_map units) as [units'|e] eqn:Hrun.
  - destruct Hout as (_ & Hsize & Hall). split; [done|eauto].
  - split; [by intros [units' Hunits']|]. intros [Hsize Hall]. exfalso.
    destruct Hout as [[Hneg _]|(t & i & Ht & Hi & Hres & _)].
    + assert (todo <> []) as Hne by (by intros ->).
      specialize (Hsize Hne). lia.
    + apply Hres. by apply Hall.
Qed.





(** ** The exception that stops [B] *)





(** ** The positions that [B] counts *)

(** The inner loop adds to every listed unit the step of its own draw and
    leaves the other units as they are. *)
Lemma B_units_lookup (shift_map : list (Qc * Z)) (todo : list nat)
    (randoms : nat -> Qc) (units units' : list Z) :
  NoDup todo ->
  B_units todo randoms shift_map units = Ok units' ->
  forall j, units' !! j
            = if decide (j ∈ todo)
              then (fun u => u + step_of shift_map (randoms j)) <$> units !! j
              else units !! j.
Proof.
  revert units. induction todo as [|i todo IH]; intros units Hnodup Hrun j.
  - simpl in Hrun. injection Hrun as <-.
    rewrite decide_False; [done|]. intros Hj. inversion Hj.
  - apply NoDup_cons in Hnodup as [Hi Hnodup].
    simpl in Hrun. rewrite get_shift_first_above in Hrun. simpl in Hrun.
    destruct (first_above shift_map (randoms i)) as [shift|] eqn:Hshift; [|done].
    unfold units_iadd in Hrun. destruct (units !! i) as [u|] eqn:Hu; [|done].
    simpl in Hrun. rewrite (IH _ Hnodup Hrun j).
    destruct (decide (j = i)) as [->|Hne].
    + rewrite (decide_False (P := i ∈ todo)) by done.
      rewrite decide_True by left.
      rewrite list_lookup_insert_eq by (by eapply lookup_lt_Some).
      rewrite Hu. simpl. unfold step_of. by rewrite Hshift.
    + rewrite list_lookup_insert_ne by done.
      destruct (decide (j ∈ todo)) as [Hj|Hj].
      * by rewrite decide_True by (by right).
      * rewrite decide_False; [done|].
        intros Hj'. apply elem_of_cons in Hj' as [?|?]; done.
Qed.

(** After the trials [0 .. n-1] every unit has moved by its own walk. *)
Lemma B_trials_lookup (shift_map : list (Qc * Z)) (n : nat) (unit_number : Z)
    (random : nat -> nat -> Qc) (units units' : list Z) :
  length units = Z.to_nat unit_number ->
  B_trials (seq 0 n) unit_number random shift_map units = Ok units' ->
  forall j, units' !! j = (fun u => u + walk shift_map random n j) <$> units !! j.
Proof.
  intros Hlen. revert units'. induction n as [|n IH]; intros units'.
  - simpl. intros [= <-] j. destruct (units !! j); simpl; [|done].
    f_equal. lia.
  - rewrite seq_S, B_trials_app. intros Hrun.
    apply bind_Ok_inv in Hrun as (units_n & Hunits_n & Hlast).
    specialize (IH units_n Hunits_n). simpl in Hlast.
    apply bind_Ok_inv in Hlast as (randoms & Hrandoms & Hlast).
    apply bind_Ok_inv in Hlast as (units_n' & Hinner & Hlast).
    injection Hlast as <-. unfold random_random in Hrandoms.
    destruct (decide (unit_number < 0)); [done|]. injection Hrandoms as <-.
    intros j. rewrite (B_units_lookup _ _ _ _ _ (NoDup_seq _ _) Hinner j), IH.
    assert (length units_n = Z.to_nat unit_number) as Hlen_n.
    { pose proof (B_trials_outcome shift_map (seq 0 n) unit_number random units Hlen)
        as Hout. rewrite Hunits_n in Hout. destruct Hout as [-> _]. done. }
    destruct (units !! j) as [u|] eqn:Hu; simpl.
    + rewrite decide_True.
      * simpl. f_equal. lia.
      * apply elem_of_seq. apply lookup_lt_Some in Hu. lia.
    + by destruct (decide _).
Qed.

(** The population at the end of a completed run. *)
Lemma B_Ok_units (unit_number trials : Z) (shift_map : list (Qc * Z))
    (random : nat -> nat -> Qc) (results : list (Z * Z)) :
  B unit_number trials shift_map random = Ok results ->
  exists mid,
    midpoint trials shift_map = Ok mid /\
    results = B_population
                (map (fun i => mid + walk shift_map random (Z.to_nat trials) i)
                     (seq 0 (Z.to_nat unit_number))).
Proof.
  intros HB. apply B_Ok_inv in HB as (mid & units & Hmid & Hunits & Hlen & ->).
  exists mid. split; [done|]. f_equal.
  pose proof (B_trials_lookup shift_map _ _ _ _ _ (length_list_repeat mid unit_number)
                Hunits) as Hlookup.
  apply list_eq. intros j. rewrite Hlookup. unfold list_repeat.
  rewrite list_lookup_fmap.
  destruct (decide (j < Z.to_nat unit_number)%nat) as [Hj|Hj].
  - rewrite lookup_replicate_2 by done. by rewrite lookup_seq_lt by done.
  - rewrite (proj1 (lookup_replicate_None _ _ _)) by lia.
    by rewrite lookup_seq_ge by lia.
Qed.

(** ** The histogram as a frequency count *)

Section DictRoundTrip.
Context {K : Type} `{EqDecision K} {V : Type}.

(** Reading a key after an assignment. *)
Lemma dict_get_dict_set (k k' : K) (v : V) (d : list (K * V)) :
  dict_get k (dict_set k' v d) = if decide (k' = k) then Some v else dict_get k d.
Proof.
  induction d as [|[k0 v0] d IH]; simpl.
  - by destruct (decide (k' = k)).
  - destruct (decide (k0 = k')) as [->|Hne]; simpl.
    + by destruct (decide (k' = k)).
    + rewrite IH. destruct (decide (k0 = k)) as [->|Hne']; [|done].
      by rewrite decide_False by done.
Qed.

Lemma dict_get_is_Some (k : K) (d : list (K * V)) :
  is_Some (dict_get k d) <-> k ∈ keys d.
Proof.
  split; [|apply dict_get_elem_of].
  intros Hsome. destruct (decide (k ∈ keys d)) as [|Hnotin]; [done|].
  rewrite (dict_get_None k d Hnotin) in Hsome. by destruct Hsome.
Qed.
End DictRoundTrip.

Lemma occurrences_cons (u v : Z) (units : list Z) :
  occurrences u (v :: units)
  = (if decide (v = u) then 1 else 0) + occurrences u units.
Proof.
  unfold occurrences. rewrite filter_cons.
  destruct (decide (v = u)); simpl; lia.
Qed.

Lemma occurrences_nonneg (u : Z) (units : list Z) : 0 <= occurrences u units.
Proof. unfold occurrences. lia. Qed.

Lemma occurrences_zero (u : Z) (units : list Z) :
  occurrences u units = 0 <-> u ∉ units.
Proof.
  induction units as [|v units IH].
  - split; [|done]. intros _ Hin. inversion Hin.
  - rewrite occurrences_cons, not_elem_of_cons.
    pose proof (occurrences_nonneg u units).
    destruct (decide (v = u)) as [->|Hne].
    + split; [lia|]. by intros [? _].
    + rewrite <- IH. split; [intros; split; [congruence|lia]|intros [_ ?]; lia].
Qed.

Lemma occurrences_Permutation (u : Z) (units units' : list Z) :
  units ≡ₚ units' -> occurrences u units = occurrences u units'.
Proof. intros Hperm. unfold occurrences. by rewrite Hperm. Qed.

(** The counting loop adds to every count the occurrences of its position
    in the list, and creates the entries that are missing. *)
Lemma count_loop_get (k : Z) (todo : list Z) (results : list (Z * Z)) :
  dict_get k (fold_left count_unit todo results)
  = match dict_get k results with
    | Some c => Some (c + occurrences k todo)
    | None => if decide (occurrences k todo = 0) then None
              else Some (occurrences k todo)
    end.
Proof.
  revert results. induction todo as [|u todo IH]; intros results.
  - simpl. destruct (dict_get k results); [f_equal; unfold occurrences; simpl; lia|done].
  - cbn [fold_left]. rewrite IH. unfold count_unit at 1.
    rewrite dict_get_dict_set, occurrences_cons.
    pose proof (occurrences_nonneg k todo).
    destruct (decide (u = k)) as [->|Hne].
    + destruct (dict_get k results); simpl.
      * f_equal. lia.
      * rewrite decide_False by lia. f_equal.
    + by rewrite Z.add_0_l.
Qed.

Lemma sorted_Permutation (units units' : list Z) :
  units ≡ₚ units' -> sorted units = sorted units'.
Proof.
  intros Hperm. unfold sorted.
  apply (Sorted_unique Z.le); try apply (Sorted_merge_sort Z.le).
  by rewrite !merge_sort_Permutation.
Qed.

Lemma B_population_get (units : list Z) (u : Z) :
  dict_get u (B_population units)
  = if decide (occurrences u units = 0) then None else Some (occurrences u units).
Proof.
  unfold B_population. rewrite count_loop_get. simpl. unfold sorted.
  by rewrite (occurrences_Permutation u _ _ (merge_sort_Permutation Z.le units)).
Qed.

Lemma elem_of_keys_B_population (units : list Z) (u : Z) :
  u ∈ keys (B_population units) <-> u ∈ units.
Proof.
  rewrite <- dict_get_is_Some, B_population_get. split.
  - destruct (decide (occurrences u units = 0)) as [|Hne]; [by intros [? ?]|].
    intros _. destruct (decide (u ∈ units)) as [|Hnotin]; [done|].
    by apply occurrences_zero in Hnotin.
  - intros Hu. rewrite decide_False; [eauto|].
    intros Hz. by apply occurrences_zero in Hz.
Qed.

(** X7.  The histogram that [B] builds from a population is its frequency
    count: a position that occurs in the population is a key and maps to
    its number of occurrences, which is at least 1, and no other position
    is a key; no key is listed twice. *)
Theorem B_population_counts (units : list Z) :
  (forall u, u ∈ units ->
             dict_get u (B_population units) = Some (occurrences u units) /\
             1 <= occurrences u units) /\
  (forall u, u ∉ units -> dict_get u (B_population units) = None) /\
  (forall u, u ∈ keys (B_population units) <-> u ∈ units) /\
  NoDup (keys (B_population units)).
Proof.
  split; [|split; [|split]].
  - intros u Hu. rewrite B_population_get.
    assert (occurrences u units <> 0) as Hne
      by (intros Hz; by apply occurrences_zero in Hz).
    pose proof (occurrences_nonneg u units).
    rewrite decide_False by done. split; [done|lia].
  - intros u Hu. rewrite B_population_get. by rewrite decide_True by (by apply occurrences_zero).
  - intros u. apply elem_of_keys_B_population.
  - apply StronglySorted_lt_NoDup, B_population_sorted.
Qed.

(** X8.  The histogram does not depend on the order of the units: two
    populations that are permutations of each other give the same
    dictionary, with the same order of keys. *)
Theorem B_population_Permutation (units units' : list Z) :
  units ≡ₚ units' -> B_population units = B_population units'.
Proof.
  intros Hperm. unfold B_population. by rewrite (sorted_Permutation _ _ Hperm).
Qed.

Lemma B_population_Permutation_witness :
  B_population [3; 1; 3; 2] = B_population [1; 2; 3; 3].
Proof.
  apply (B_population_Permutation [3; 1; 3; 2] [1; 2; 3; 3]).
  etrans; [apply perm_swap|]. apply perm_skip.
  etrans; [apply perm_skip, perm_swap|]. apply perm_swap.
Defined.

(** ** Walks *)

Lemma first_above_elem_of (shift_map : list (Qc * Z)) (x : Qc) (shift : Z) :
  first_above shift_map x = Some shift -> shift ∈ values shift_map.
Proof.
  intros Hfirst. apply first_above_Some in Hfirst as (seen & key & rest & -> & _).
  unfold values. rewrite map_app. apply elem_of_app. right. left.
Qed.

(** Every draw read in a completed run is resolved. *)
Lemma B_Ok_resolved (unit_number trials : Z) (shift_map : list (Qc * Z))
    (random : nat -> nat -> Qc) (results : list (Z * Z)) :
  B unit_number trials shift_map random = Ok results ->
  forall t i, (t < Z.to_nat trials)%nat -> (i < Z.to_nat unit_number)%nat ->
              resolved shift_map (random t i).
Proof.
  intros HB t i Ht Hi.
  apply B_Ok_inv in HB as (mid & units & _ & Hunits & _ & _).
  pose proof (B_trials_outcome shift_map (range trials) unit_number random
                (list_repeat mid unit_number) (length_list_repeat _ _)) as Hout.
  rewrite Hunits in Hout. destruct Hout as (_ & _ & Hall).
  apply Hall; [by apply elem_of_range|done].
Qed.

Lemma walk_bounds (shift_map : list (Qc * Z)) (random : nat -> nat -> Qc)
    (lo hi : Z) (n i : nat) :
  (forall t, (t < n)%nat -> lo <= step_of shift_map (random t i) <= hi) ->
  Z.of_nat n * lo <= walk shift_map random n i <= Z.of_nat n * hi.
Proof.
  induction n as [|n IH]; intros Hsteps; simpl; [lia|].
  specialize (Hsteps n ltac:(lia)) as Hn.
  assert (Z.of_nat n * lo <= walk shift_map random n i <= Z.of_nat n * hi)
    by (apply IH; intros t Ht; apply Hsteps; lia).
  lia.
Qed.

(** X9.  In a completed run the units walk independently: the count that
    the histogram gives for a position [k] is the number of units [i]
    whose start [midpoint(trials, table)] plus the sum of the steps of
    their own draws is [k], and positions that no unit reaches are not
    keys. *)
Theorem B_counts_walks (unit_number trials : Z) (shift_map : list (Qc * Z))
    (random : nat -> nat -> Qc) (results : list (Z * Z)) :
  B unit_number trials shift_map random = Ok results ->
  exists mid,
    midpoint trials shift_map = Ok mid /\
    forall k,
      dict_get k results
      = let reached :=
          occurrences k
            (map (fun i => mid + walk shift_map random (Z.to_nat trials) i)
                 (seq 0 (Z.to_nat unit_number))) in
        if decide (reached = 0) then None else Some reached.
Proof.
  intros HB. apply B_Ok_units in HB as (mid & Hmid & ->).
  exists mid. split; [done|]. intros k. apply B_population_get.
Qed.

Lemma B_counts_walks_witness :
  exists mid,
    midpoint 2 default_shift_map = Ok mid /\
    forall k,
      dict_get k [(-1, 1); (3, 2)]
      = let reached :=
          occurrences k
            (map (fun i => mid + walk default_shift_map
                                   (fun t i => if decide (i = 1%nat) then 0%Qc else Q2Qc (3 # 4))
                                   (Z.to_nat 2) i)
                 (seq 0 (Z.to_nat 3))) in
        if decide (reached = 0) then None else Some reached.
Proof.
  apply (B_counts_walks 3 2 default_shift_map
           (fun t i => if decide (i = 1%nat) then 0%Qc else Q2Qc (3 # 4))).
  reflexivity.
Defined.

(** X10.  When every step of the table lies between [lo] and [hi], every
    position of the histogram of a completed run lies between
    [mid + n * lo] and [mid + n * hi], where [mid] is the midpoint and [n]
    the number of trials run ([max(0, trials)]). *)
Theorem B_positions_bounded (unit_number trials : Z) (shift_map : list (Qc * Z))
    (random : nat -> nat -> Qc) (results : list (Z * Z)) (lo hi : Z) :
  Forall (fun shift => lo <= shift <= hi) (values shift_map) ->
  B unit_number trials shift_map random = Ok results ->
  exists mid,
    midpoint trials shift_map = Ok mid /\
    Forall (fun k => mid + Z.max 0 trials * lo <= k <= mid + Z.max 0 trials * hi)
           (keys results).
Proof.
  intros Hsteps HB. pose proof (B_Ok_resolved _ _ _ _ _ HB) as Hres.
  apply B_Ok_units in HB as (mid & Hmid & ->).
  exists mid. split; [done|]. apply Forall_forall. intros k Hk.
  apply (proj1 (elem_of_keys_B_population _ k)) in Hk.
  apply list_elem_of_fmap in Hk as (i & -> & Hi).
  apply elem_of_seq in Hi.
  pose proof (walk_bounds shift_map random lo hi (Z.to_nat trials) i) as Hwalk.
  replace (Z.of_nat (Z.to_nat trials)) with (Z.max 0 trials) in Hwalk by lia.
  assert (forall t, (t < Z.to_nat trials)%nat ->
                    lo <= step_of shift_map (random t i) <= hi) as Hstep;
    [|specialize (Hwalk Hstep); lia].
  intros t Ht. destruct (Hres t i Ht ltac:(lia)) as [shift Hshift].
  unfold step_of. rewrite Hshift. simpl.
  rewrite Forall_forall in Hsteps. apply Hsteps.
  by apply first_above_elem_of in Hshift.
Qed.

Lemma B_positions_bounded_witness :
  exists mid,
    midpoint 2 default_shift_map = Ok mid /\
    Forall (fun k => mid + Z.max 0 2 * (-1) <= k <= mid + Z.max 0 2 * 1)
           (keys [(-1, 1); (3, 2)]).
Proof.
  apply (B_positions_bounded 3 2 default_shift_map
           (fun t i => if decide (i = 1%nat) then 0%Qc else Q2Qc (3 # 4))).
  - repeat constructor; simpl; lia.
  - reflexivity.
Defined.






(** ** The file written by [save_csv] *)

Lemma count_char_app (c : ascii) (s1 s2 : string) :
  count_char c (s1 ++ s2) = (count_char c s1 + count_char c s2)%nat.
Proof. induction s1 as [|c' s1 IH]; simpl; [done|]. rewrite IH. lia. Qed.

Lemma count_char_uint (c : ascii) (d : Decimal.uint) :
  separator c -> count_char c (NilEmpty.string_of_uint d) = 0%nat.
Proof. intros [-> | ->]; induction d; simpl; done. Qed.

(** A printed integer holds no separator. *)
Lemma count_char_str_int (c : ascii) (n : Z) :
  separator c -> count_char c (str_int n) = 0%nat.
Proof.
  intros Hc. unfold str_int, NilZero.string_of_int, NilZero.string_of_uint.
  destruct (Z.to_int n) as [d|d]; destruct d;
    try (cbn [count_char]; rewrite ?(count_char_uint c) by done);
    destruct Hc as [-> | ->]; simpl; try done;
    apply (count_char_uint _ _ (or_introl eq_refl)) ||
    apply (count_char_uint _ _ (or_intror eq_refl)).
Qed.

(** A printed integer reads back as itself. *)
Lemma str_int_read (n : Z) :
  option_map Z.of_int (NilZero.int_of_string (str_int n)) = Some n.
Proof.
  unfold str_int. rewrite NilZero.isi.
  - simpl. f_equal. apply DecimalZ.of_to.
  - destruct n as [|p|p]; simpl; try done.
    intros [= Hp]. by apply DecimalPos.Unsigned.to_uint_nonnil in Hp.
  - destruct n as [|p|p]; simpl; try done.
    intros [= Hp]. by apply DecimalPos.Unsigned.to_uint_nonnil in Hp.
Qed.

Lemma str_int_inj (n m : Z) : str_int n = str_int m -> n = m.
Proof.
  intros Heq. pose proof (str_int_read n) as Hn.
  rewrite Heq, str_int_read in Hn. congruence.
Qed.

Lemma save_csv_loop_app (todo1 todo2 : list (Z * Z)) (f : string) :
  save_csv_loop (todo1 ++ todo2) f = save_csv_loop todo2 (save_csv_loop todo1 f).
Proof.
  revert f. induction todo1 as [|[k v] todo1 IH]; intros f; simpl; [done|].
  apply IH.
Qed.

Lemma save_csv_loop_prefix (todo : list (Z * Z)) (f : string) :
  save_csv_loop todo f = (f ++ save_csv_loop todo "")%string.
Proof.
  revert f. induction todo as [|[k v] todo IH]; intros f; simpl.
  - by rewrite string_app_empty_r.
  - rewrite (IH (f ++ csv_line k v)%string), (IH (csv_line k v)).
    by rewrite string_app_assoc.
Qed.

(** The loop of [f.write] calls produces the text entry by entry. *)
Lemma save_csv_csv_text (results : list (Z * Z)) : save_csv results = csv_text results.
Proof.
  unfold save_csv. induction results as [|[k v] rest IH]; [done|].
  cbn [save_csv_loop csv_text]. rewrite save_csv_loop_prefix, IH.
  unfold csv_line. rewrite !string_app_assoc. reflexivity.
Qed.

(** Two texts that agree, each cut at its first occurrence of [c]. *)
Lemma string_cut (c : ascii) (s1 s2 t1 t2 : string) :
  count_char c s1 = 0%nat -> count_char c s2 = 0%nat ->
  (s1 ++ String c t1 = s2 ++ String c t2)%string ->
  s1 = s2 /\ t1 = t2.
Proof.
  revert s2. induction s1 as [|a s1 IH]; intros [|b s2]; simpl.
  - intros _ _ [= ->]. done.
  - intros _ Hb [= <- _]. by rewrite Ascii.eqb_refl in Hb.
  - intros Ha _ [= -> _]. by rewrite Ascii.eqb_refl in Ha.
  - intros Ha Hb [= -> Heq].
    destruct (Ascii.eqb b c); [done|]. simpl in Ha, Hb.
    destruct (IH s2 Ha Hb Heq) as [-> ->]. done.
Qed.

Lemma count_char_csv_text (results : list (Z * Z)) :
  count_char (ascii_of_nat 10) (csv_text results) = length results.
Proof.
  induction results as [|[k v] rest IH]; [done|].
  cbn [csv_text length]. rewrite !count_char_app, IH.
  rewrite !(count_char_str_int (ascii_of_nat 10)) by (by right). reflexivity.
Qed.

(** The text determines the entries. *)
Lemma csv_text_inj (results1 results2 : list (Z * Z)) :
  csv_text results1 = csv_text results2 -> results1 = results2.
Proof.
  revert results2.
  induction results1 as [|[k1 v1] rest1 IH]; intros [|[k2 v2] rest2];
    cbn [csv_text]; try done.
  - intros Heq. apply (f_equal (count_char (ascii_of_nat 10))) in Heq.
    rewrite !count_char_app, !(count_char_str_int (ascii_of_nat 10)) in Heq
      by (by right). simpl in Heq. lia.
  - intros Heq. apply (f_equal (count_char (ascii_of_nat 10))) in Heq.
    rewrite !count_char_app, !(count_char_str_int (ascii_of_nat 10)) in Heq
      by (by right). simpl in Heq. lia.
  - intros Heq.
    apply (string_cut ","%char) in Heq as [Hk Heq];
      try (apply count_char_str_int; by left).
    apply (string_cut (ascii_of_nat 10)) in Heq as [Hv Heq];
      try (apply count_char_str_int; by right).
    apply str_int_inj in Hk, Hv. subst. f_equal. by apply IH.
Qed.

(** X12.  For a dictionary of ints that [str] prints, the file that
    [save_csv] writes is, for each entry in order, the decimal text of the
    position, a comma, the decimal text of the count and a line break, and
    nothing else (no header).  The printed numbers hold no comma and no
    line break and read back as themselves, so that the file has as many
    line breaks as the dictionary has entries and two dictionaries with
    the same file are equal.  The file of the entries of [first] followed
    by those of [second] is the file of [first] followed by that of
    [second]. *)
Theorem save_csv_lines (first second : list (Z * Z)) :
  Forall (fun entry => printable entry.1 /\ printable entry.2) first ->
  Forall (fun entry => printable entry.1 /\ printable entry.2) second ->
  save_csv first = csv_text first /\
  Forall (fun entry =>
            option_map Z.of_int (NilZero.int_of_string (str_int entry.1))
            = Some entry.1 /\
            option_map Z.of_int (NilZero.int_of_string (str_int entry.2))
            = Some entry.2) first /\
  count_char (ascii_of_nat 10) (save_csv first) = length first /\
  save_csv (first ++ second) = (save_csv first ++ save_csv second)%string /\
  (save_csv first = save_csv second -> first = second).
Proof.
  intros _ _. split; [apply save_csv_csv_text|]. split.
  { apply Forall_forall. intros entry _. split; apply str_int_read. }
  split; [rewrite save_csv_csv_text; apply count_char_csv_text|]. split.
  - unfold save_csv. rewrite save_csv_loop_app. apply save_csv_loop_prefix.
  - rewrite !save_csv_csv_text. apply csv_text_inj.
Qed.

Lemma save_csv_lines_witness :
  save_csv [(-1, 1); (3, 2)] = csv_text [(-1, 1); (3, 2)] /\
  Forall (fun entry =>
            option_map Z.of_int (NilZero.int_of_string (str_int entry.1))
            = Some entry.1 /\
            option_map Z.of_int (NilZero.int_of_string (str_int entry.2))
            = Some entry.2) [(-1, 1); (3, 2)] /\
  count_char (ascii_of_nat 10) (save_csv [(-1, 1); (3, 2)])
  = length [(-1, 1); (3, 2)] /\
  save_csv ([(-1, 1); (3, 2)] ++ [(4, 7)])
  = (save_csv [(-1, 1); (3, 2)] ++ save_csv [(4, 7)])%string /\
  (save_csv [(-1, 1); (3, 2)] = save_csv [(4, 7)] -> [(-1, 1); (3, 2)] = [(4, 7)]).
Proof.
  apply (save_csv_lines [(-1, 1); (3, 2)] [(4, 7)]).
  - repeat constructor; compute_done.
  - repeat constructor; compute_done.
Defined.

(** ** The values produced by [plot] *)

Section DictValues.
Context {K : Type} `{EqDecision K} {V : Type}.

Lemma dict_get_values (k : K) (v : V) (d : list (K * V)) :
  dict_get k d = Some v -> v ∈ values d.
Proof.
  induction d as [|[k' v'] d IH]; simpl; [done|].
  destruct (decide (k' = k)); [intros [= ->]; left|right; auto].
Qed.

Lemma Forall_values_dict_set (P : V -> Prop) (k : K) (v : V) (d : list (K * V)) :
  Forall P (values d) -> P v -> Forall P (values (dict_set k v d)).
Proof.
  intros Hd Hv. induction d as [|[k' v'] d IH]; simpl.
  - by repeat constructor.
  - apply Forall_cons in Hd as [Hv' Hd].
    destruct (decide (k' = k)); simpl; constructor; auto.
Qed.

(** Assigning to a key the value that it has changes nothing. *)
Lemma dict_set_same (k : K) (v : V) (d : list (K * V)) :
  dict_get k d = Some v -> dict_set k v d = d.
Proof.
  induction d as [|[k' v'] d IH]; simpl; [done|].
  destruct (decide (k' = k)); [by intros [= ->]|]. intros Hget. by rewrite IH.
Qed.
End DictValues.

Lemma sum_int_nonneg (l : list Z) :
  Forall (fun w => 0 <= w) l -> 0 <= sum_int l.
Proof.
  induction 1 as [|w l Hw Hl IH]; [done|]. rewrite sum_int_cons. lia.
Qed.

Lemma sum_int_elem_of_le (v : Z) (l : list Z) :
  Forall (fun w => 0 <= w) l -> v ∈ l -> 0 <= v <= sum_int l.
Proof.
  induction l as [|w l IH]; intros Hl Hv; [inversion Hv|].
  apply Forall_cons in Hl as [Hw Hl]. rewrite sum_int_cons.
  pose proof (sum_int_nonneg l Hl).
  apply elem_of_cons in Hv as [->|Hv]; [lia|].
  specialize (IH Hl Hv). lia.
Qed.

Lemma Qc_of_Z_pos (n : Z) : 0 < n -> (0 < Qc_of_Z n)%Qc.
Proof. intros Hn. rewrite <- Z2Qc_inj_0. exact (proj1 (Z2Qc_inj_lt 0 n) Hn). Qed.

(** A quotient of a count by a total that it does not exceed. *)
Lemma density_range (v total : Z) :
  0 <= v <= total -> 0 < total ->
  (0 <= Qc_of_Z v / Qc_of_Z total)%Qc /\ (Qc_of_Z v / Qc_of_Z total <= 1)%Qc.
Proof.
  intros Hv Htotal. pose proof (Qc_of_Z_pos total Htotal) as Hpos.
  pose proof (Qclt_le_weak _ _ (Qcinv_pos _ Hpos)) as Hinv.
  unfold Qcdiv. split.
  - apply Qcmult_nonneg_nonneg; [|done].
    rewrite <- Z2Qc_inj_0. apply (proj1 (Z2Qc_inj_le 0 v)). lia.
  - rewrite <- (Qcmult_inv_r (Qc_of_Z total)) by (by apply not_symmetry, Qclt_not_eq).
    apply Qcmult_le_mono_nonneg_r; [done|]. apply (proj1 (Z2Qc_inj_le v total)). lia.
Qed.

(** The outcome of the normalisation on a dictionary. *)
Lemma plot_normalise_Ok_inv (results : list (Z * Z)) (density : list (Z * Qc)) :
  NoDup (keys results) ->
  plot_normalise results = Ok density ->
  density = map (density_of (sum_int (values results))) results /\
  (results = [] \/ sum_int (values results) <> 0).
Proof.
  intros Hnodup. unfold plot_normalise.
  destruct (decide (sum_int (values results) = 0)) as [Hz|Hnz].
  - rewrite Hz. destruct results as [|entry rest]; [|by rewrite normalise_loop_zero].
    simpl. intros [= <-]. split; [done|by left].
  - rewrite normalise_loop_nonzero by done. intros [= <-]. split; [done|by right].
Qed.

(** X13.  On a histogram whose counts are not negative, as are those that
    [B] returns, the normalisation of [plot], when it does not raise,
    gives every position a value between 0 and 1, the positions and their
    order being those of the histogram. *)
Theorem plot_normalise_range (results : list (Z * Z)) (density : list (Z * Qc)) :
  NoDup (keys results) ->
  Forall (fun count => 0 <= count) (values results) ->
  plot_normalise results = Ok density ->
  keys density = keys results /\
  Forall (fun q => 0 <= q /\ q <= 1)%Qc (values density).
Proof.
  intros Hnodup Hcounts Hnorm.
  apply plot_normalise_Ok_inv in Hnorm as [-> Htotal]; [|done]. split.
  - unfold keys. rewrite map_map. by apply map_ext.
  - apply Forall_forall. intros q Hq. unfold values in Hq.
    rewrite map_map in Hq. apply list_elem_of_fmap in Hq as ([k v] & -> & Hin).
    simpl. assert (v ∈ values results) as Hv.
    { apply list_elem_of_fmap. by exists (k, v). }
    pose proof (sum_int_elem_of_le v _ Hcounts Hv) as Hle.
    destruct Htotal as [->|Htotal]; [inversion Hin|].
    unfold values in *. apply density_range; lia.
Qed.

Lemma plot_normalise_range_witness :
  keys [(0, Q2Qc (1 # 4)); (1, Q2Qc (3 # 4))] = keys [(0, 1); (1, 3)] /\
  Forall (fun q => 0 <= q /\ q <= 1)%Qc (values [(0, Q2Qc (1 # 4)); (1, Q2Qc (3 # 4))]).
Proof.
  apply (plot_normalise_range [(0, 1); (1, 3)]).
  - compute_done.
  - repeat constructor; done.
  - compute_done.
Defined.

(** ** Smoothing keeps the values in range *)

Lemma neighbours_of_values (results : list (Z * Qc)) (k : Z) (v : Qc) :
  v ∈ neighbours_of results k -> v ∈ values results.
Proof.
  unfold neighbours_of. intros Hv.
  apply list_elem_of_omap in Hv as (found & Hfound & Hid).
  unfold id in Hid. subst found.
  apply list_elem_of_fmap in Hfound as (i & Hget & _).
  symmetry in Hget. by apply dict_get_values in Hget.
Qed.

(** The sum of [n] values between [lo] and [hi]. *)
Lemma sum_float_bounds (lo hi : Qc) (l : list Qc) :
  Forall (fun v => lo <= v /\ v <= hi)%Qc l ->
  (lo * Qc_of_Z (Z.of_nat (length l)) <= sum_float l)%Qc /\
  (sum_float l <= hi * Qc_of_Z (Z.of_nat (length l)))%Qc.
Proof.
  induction 1 as [|v l [Hlo Hhi] Hl [IHlo IHhi]].
  - unfold sum_float. cbn [length fold_left]. change (Z.of_nat 0) with 0.
    rewrite Z2Qc_inj_0, !Qcmult_0_r. split; apply Qcle_refl.
  - rewrite sum_float_cons. cbn [length]. rewrite Nat2Z.inj_succ.
    unfold Z.succ. rewrite Z2Qc_inj_add, Z2Qc_inj_1, !Qcmult_plus_distr_r, !Qcmult_1_r.
    rewrite (Qcplus_comm (lo * _)), (Qcplus_comm (hi * _)).
    split; by apply Qcplus_le_compat.
Qed.

(** The average of a list with at least one element lies between its
    bounds. *)
Lemma average_bounds (lo hi : Qc) (l : list Qc) :
  l <> [] ->
  Forall (fun v => lo <= v /\ v <= hi)%Qc l ->
  (lo <= sum_float l / Qc_of_Z (Z.of_nat (length l)))%Qc /\
  (sum_float l / Qc_of_Z (Z.of_nat (length l)) <= hi)%Qc.
Proof.
  intros Hne Hl. destruct (sum_float_bounds lo hi l Hl) as [Hlo Hhi].
  assert (0 < Qc_of_Z (Z.of_nat (length l)))%Qc as Hpos.
  { apply Qc_of_Z_pos. destruct l; [done|simpl; lia]. }
  assert (Qc_of_Z (Z.of_nat (length l)) <> 0%Qc) as Hnz
    by (by apply not_symmetry, Qclt_not_eq).
  split.
  - apply (Qcmult_le_mono_pos_r _ _ _ Hpos).
    by rewrite (Qcmult_comm (_ / _)), Qcmult_div_r.
  - apply (Qcmult_le_mono_pos_r _ _ _ Hpos).
    by rewrite (Qcmult_comm (_ / _)), Qcmult_div_r.
Qed.

Lemma smooth_step_bounds (lo hi : Qc) (results results' : list (Z * Qc)) (k : Z) :
  Forall (fun v => lo <= v /\ v <= hi)%Qc (values results) ->
  smooth_step results k = Ok results' ->
  Forall (fun v => lo <= v /\ v <= hi)%Qc (values results').
Proof.
  intros Hvalues. unfold smooth_step, float_truediv.
  destruct (decide (Z.of_nat (length (neighbours_of results k)) = 0)) as [|Hlen];
    [done|].
  simpl. intros [= <-]. apply Forall_values_dict_set; [done|].
  apply average_bounds.
  - intros Hnil. rewrite Hnil in Hlen. done.
  - apply Forall_forall. intros v Hv. rewrite Forall_forall in Hvalues.
    by apply Hvalues, (neighbours_of_values results k).
Qed.

Lemma smooth_loop_bounds (lo hi : Qc) (todo : list Z)
    (results results' : list (Z * Qc)) :
  Forall (fun v => lo <= v /\ v <= hi)%Qc (values results) ->
  smooth_loop todo results = Ok results' ->
  Forall (fun v => lo <= v /\ v <= hi)%Qc (values results').
Proof.
  revert results. induction todo as [|k todo IH]; intros results Hvalues; simpl.
  - by intros [= <-].
  - intros Hrun. apply bind_Ok_inv in Hrun as (results1 & Hstep & Hrun).
    eapply IH; [|exact Hrun]. by eapply smooth_step_bounds.
Qed.

(** X16.  When no two keys of the dictionary are within 3 of each other,
    every key is its own only neighbour and the smoothing leaves the
    dictionary as it is. *)
Theorem plot_smooth_isolated_keys (results : list (Z * Qc)) :
  (forall k k', k ∈ keys results -> k' ∈ keys results -> k <> k' ->
                3 < Z.abs (k - k')) ->
  plot_smooth results = Ok results.
Proof.
  intros Hfar.
  assert (forall k, k ∈ keys results -> smooth_step results k = Ok results) as Hstep.
  { intros k Hk. destruct (dict_get_elem_of k results Hk) as [v Hv].
    assert (forall i, i <> 0 -> -3 <= i <= 3 -> dict_get (k + i) results = None)
      as Hnone.
    { intros i Hi Hrange. apply dict_get_None. intros Hin.
      specialize (Hfar k (k + i) Hk Hin ltac:(lia)). lia. }
    assert (neighbours_of results k = [v]) as Hneighbours.
    { unfold neighbours_of. rewrite range2_window. cbn [map].
      rewrite Z.add_0_r, Hv. rewrite !Hnone by lia. reflexivity. }
    unfold smooth_step. rewrite Hneighbours. unfold float_truediv.
    change (Z.of_nat (length [v])) with 1. rewrite decide_False by done.
    rewrite sum_float_cons. unfold sum_float. cbn [fold_left].
    rewrite Qcplus_0_r, Z2Qc_inj_1, (right_id 1%Qc Qcdiv). simpl.
    by rewrite dict_set_same. }
  unfold plot_smooth.
  assert (forall todo, Forall (fun k => k ∈ keys results) todo ->
                       smooth_loop todo results = Ok results) as Hloop.
  { induction todo as [|k todo IH]; intros Htodo; simpl; [done|].
    apply Forall_cons in Htodo as [Hk Htodo]. rewrite (Hstep k Hk). simpl. auto. }
  apply Hloop. by apply Forall_forall.
Qed.

Lemma plot_smooth_isolated_keys_witness :
  plot_smooth [(0, Q2Qc (1 # 4)); (4, Q2Qc (3 # 4))]
  = Ok [(0, Q2Qc (1 # 4)); (4, Q2Qc (3 # 4))].
Proof.
  apply plot_smooth_isolated_keys.
  intros k k' Hk Hk' Hne. simpl in Hk, Hk'.
  apply elem_of_cons in Hk as [->|Hk]; [|apply list_elem_of_singleton in Hk as ->];
    (apply elem_of_cons in Hk' as [->|Hk'];
       [|apply list_elem_of_singleton in Hk' as ->]);
    (done || (simpl; lia)).
Defined.

(** ** [plot] on the histogram of [B] *)

Lemma count_loop_positive (todo : list Z) (results : list (Z * Z)) :
  Forall (fun count => 1 <= count) (values results) ->
  Forall (fun count => 1 <= count) (values (fold_left count_unit todo results)).
Proof.
  revert results. induction todo as [|u todo IH]; intros results Hpos; simpl; [done|].
  apply IH. unfold count_unit. apply Forall_values_dict_set; [done|].
  destruct (dict_get u results) as [count|] eqn:Hget; simpl; [|lia].
  apply dict_get_values in Hget. rewrite Forall_forall in Hpos.
  specialize (Hpos count Hget). lia.
Qed.

Lemma sum_int_positive (l : list Z) :
  Forall (fun count => 1 <= count) l -> l <> [] -> 1 <= sum_int l.
Proof.
  intros Hl Hne. destruct l as [|count l]; [done|].
  apply Forall_cons in Hl as [Hcount Hl]. rewrite sum_int_cons.
  assert (0 <= sum_int l); [|lia].
  apply sum_int_nonneg. eapply Forall_impl; [exact Hl|]. intros; simpl in *; lia.
Qed.

(** X17.  [plot] never raises on a histogram returned by [B], not even
    on the empty one of a run without units: it hands to the renderer the
    positions of the histogram, in their ascending order, and as many
    values, each between 0 and 1. *)
Theorem plot_after_B (unit_number trials : Z) (shift_map : list (Qc * Z))
    (random : nat -> nat -> Qc) (results : list (Z * Z)) :
  B unit_number trials shift_map random = Ok results ->
  exists ys,
    plot results = Ok (keys results, ys) /\
    length ys = length results /\
    Forall (fun y => 0 <= y /\ y <= 1)%Qc ys.
Proof.
  intros HB. apply B_Ok_inv in HB as (mid & units & _ & _ & _ & ->).
  set (results := B_population units).
  assert (NoDup (keys results)) as Hnodup
    by apply StronglySorted_lt_NoDup, B_population_sorted.
  assert (Forall (fun count => 1 <= count) (values results)) as Hpos
    by (apply count_loop_positive; constructor).
  assert (Forall (fun count => 0 <= count) (values results)) as Hnonneg
    by (eapply Forall_impl; [exact Hpos|]; intros; simpl in *; lia).
  set (total := sum_int (values results)).
  assert (plot_normalise results = Ok (map (density_of total) results)) as Hnorm.
  { unfold plot_normalise. fold total.
    destruct (decide (results = [])) as [Hnil|Hne]; [by rewrite Hnil|].
    apply normalise_loop_nonzero; [|done].
    assert (values results <> []) as Hne' by (by destruct results).
    pose proof (sum_int_positive _ Hpos Hne'). unfold total. lia. }
  assert (Forall (fun y => 0 <= y /\ y <= 1)%Qc
                 (values (map (density_of total) results))) as Hrange.
  { apply Forall_forall. intros q Hq. unfold values in Hq.
    rewrite map_map in Hq. apply list_elem_of_fmap in Hq as ([k v] & -> & Hin).
    simpl. assert (v ∈ values results) as Hv.
    { apply list_elem_of_fmap. by exists (k, v). }
    pose proof (sum_int_elem_of_le v _ Hnonneg Hv) as Hle.
    rewrite Forall_forall in Hpos. specialize (Hpos v Hv).
    fold total in Hle. apply density_range; lia. }
  destruct (smooth_loop_Ok (keys (map (density_of total) results))
              (map (density_of total) results)) as (smoothed & Hrun & Hkeys).
  { by apply Forall_forall. }
  assert (keys smoothed = keys results) as Hkeys'.
  { rewrite Hkeys. unfold keys. rewrite map_map. by apply map_ext. }
  exists (values smoothed). unfold plot. rewrite Hnorm. simpl.
  unfold plot_smooth. rewrite Hrun. simpl. rewrite Hkeys'. split; [done|]. split.
  - unfold values. rewrite length_map.
    rewrite <- (length_map fst smoothed), <- (length_map fst results).
    change (map fst smoothed) with (keys smoothed). by rewrite Hkeys'.
  - by apply (smooth_loop_bounds 0 1 _ _ _ Hrange Hrun).
Qed.

Lemma plot_after_B_witness :
  exists ys,
    plot [(-1, 1); (3, 2)] = Ok (keys [(-1, 1); (3, 2)], ys) /\
    length ys = length [(-1, 1); (3, 2)] /\
    Forall (fun y => 0 <= y /\ y <= 1)%Qc ys.
Proof.
  apply (plot_after_B 3 2 default_shift_map
           (fun t i => if decide (i = 1%nat) then 0%Qc else Q2Qc (3 # 4))).
  reflexivity.
Defined.

(** ** [main] *)

Lemma bind_Ok {A B : Type} (a : A) (k : A -> result B) : Ok a ≫= k = k a.
Proof. reflexivity. Qed.

(** X18.  The table of [main] is well formed, so the simulation that
    [main] runs cannot raise: for every source of draws below 1.0 it
    returns a histogram of the 10000 units, whose positions ascend and lie
    between -75 and 225 (the units start at 75 and move by at most 3 in
    each of the 50 trials). *)
Theorem main_completes (random : nat -> nat -> Qc) :
  (forall t i, (random t i < 1)%Qc) ->
  well_formed_table main_shift_map /\
  midpoint 50 main_shift_map = Ok 75 /\
  exists results,
    main random = Ok results /\
    sum_int (values results) = 10000 /\
    StronglySorted Z.lt (keys results) /\
    Forall (fun k => -75 <= k <= 225) (keys results).
Proof.
  intros Hdraws.
  assert (midpoint 50 main_shift_map = Ok 75) as Hmid by reflexivity.
  split; [split; [repeat constructor|reflexivity]|].
  split; [exact Hmid|].
  unfold main.
  destruct (proj2 (B_trials_Ok_iff main_shift_map (range 50) 10000 random
               (list_repeat 75 10000) (length_list_repeat _ _)))
    as [units Hunits].
  { split; [lia|]. intros t i _ _. apply resolved_iff. exists 1%Qc.
    split; [do 5 right; left|apply Hdraws]. }
  assert (B 10000 50 main_shift_map random = Ok (B_population units)) as HB.
  { unfold B. rewrite Hmid, bind_Ok, Hunits. by rewrite bind_Ok. }
  exists (B_population units). split; [exact HB|].
  pose proof (B_Ok_resolved _ _ _ _ _ HB) as Hres.
  pose proof (B_trials_outcome main_shift_map (range 50) 10000 random
                (list_repeat 75 10000) (length_list_repeat _ _)) as Hout.
  rewrite Hunits in Hout. destruct Hout as (Hlen & _ & _).
  rewrite length_list_repeat in Hlen.
  split; [rewrite B_population_sum, Hlen; lia|].
  split; [apply B_population_sorted|].
  apply B_Ok_units in HB as (mid' & Hmid' & ->).
  assert (mid' = 75) as -> by congruence.
  apply Forall_forall. intros k Hk.
  apply (proj1 (elem_of_keys_B_population _ k)) in Hk.
  apply list_elem_of_fmap in Hk as (i & -> & Hi). apply elem_of_seq in Hi.
  pose proof (walk_bounds main_shift_map random (-3) 3 (Z.to_nat 50) i) as Hwalk.
  assert (forall t, (t < Z.to_nat 50)%nat ->
                    -3 <= step_of main_shift_map (random t i) <= 3) as Hstep.
  { intros t Ht. destruct (Hres t i Ht ltac:(lia)) as [shift Hshift].
    unfold step_of. rewrite Hshift. cbn [default].
    apply first_above_elem_of in Hshift.
    assert (Forall (fun s => -3 <= s <= 3) (values main_shift_map)) as Hall
      by (repeat constructor; cbn; lia).
    rewrite Forall_forall in Hall. by apply Hall. }
  specialize (Hwalk Hstep). rewrite Z2Nat.id in Hwalk by lia. lia.
Qed.

Lemma main_completes_witness :
  well_formed_table main_shift_map /\
  midpoint 50 main_shift_map = Ok 75 /\
  exists results,
    main (fun _ _ => Q2Qc (3 # 4)) = Ok results /\
    sum_int (values results) = 10000 /\
    StronglySorted Z.lt (keys results) /\
    Forall (fun k => -75 <= k <= 225) (keys results).
Proof.
  apply (main_completes (fun _ _ => Q2Qc (3 # 4))). intros _ _. reflexivity.
Defined.

(** ** Further edge cases *)

(** X19.  On a histogram, that is a dictionary whose counts are not
    negative (so that no quotient leaves the range of the floats), the
    only exception of [plot] (before the rendering) is the
    [ZeroDivisionError] of the normalisation, raised exactly when there is
    an entry and the counts add up to zero; in every other case [plot]
    hands over the positions of the histogram, in their order, with one
    value for each. *)
Theorem plot_outcome (results : list (Z * Z)) :
  NoDup (keys results) ->
  Forall (fun count => 0 <= count) (values results) ->
  (plot results = Raise ZeroDivisionError <->
   results <> [] /\ sum_int (values results) = 0) /\
  (results = [] \/ sum_int (values results) <> 0 ->
   exists ys, plot results = Ok (keys results, ys) /\ length ys = length results).
Proof.
  intros Hnodup _.
  assert (results = [] \/ sum_int (values results) <> 0 ->
          exists ys, plot results = Ok (keys results, ys) /\
                     length ys = length results) as Hok.
  { intros Hcase. set (total := sum_int (values results)).
    assert (plot_normalise results = Ok (map (density_of total) results)) as Hnorm.
    { unfold plot_normalise. fold total. destruct Hcase as [->|Hnz]; [done|].
      by apply normalise_loop_nonzero. }
    destruct (smooth_loop_Ok (keys (map (density_of total) results))
                (map (density_of total) results)) as (smoothed & Hrun & Hkeys).
    { by apply Forall_forall. }
    assert (keys smoothed = keys results) as Hkeys'.
    { rewrite Hkeys. unfold keys. rewrite map_map. by apply map_ext. }
    exists (values smoothed). unfold plot. rewrite Hnorm, bind_Ok.
    unfold plot_smooth. rewrite Hrun, bind_Ok, Hkeys'. split; [done|].
    unfold values. rewrite length_map.
    rewrite <- (length_map fst smoothed), <- (length_map fst results).
    change (map fst smoothed) with (keys smoothed). by rewrite Hkeys'. }
  split; [|exact Hok]. split.
  - intros Hraise. destruct (decide (results = [])) as [Hnil|Hne].
    + destruct (Hok (or_introl Hnil)) as (ys & Hplot & _). congruence.
    + split; [done|]. destruct (decide (sum_int (values results) = 0)) as [|Hnz]; [done|].
      destruct (Hok (or_intror Hnz)) as (ys & Hplot & _). congruence.
  - intros [Hne Hz]. unfold plot, plot_normalise. rewrite Hz.
    by rewrite normalise_loop_zero.
Qed.

Lemma plot_outcome_witness :
  (plot [(1, 0); (2, 0)] = Raise ZeroDivisionError <->
   [(1, 0); (2, 0)] <> [] /\ sum_int (values [(1, 0); (2, 0)]) = 0) /\
  ([(1, 0); (2, 0)] = [] \/ sum_int (values [(1, 0); (2, 0)]) <> 0 ->
   exists ys, plot [(1, 0); (2, 0)] = Ok (keys [(1, 0); (2, 0)], ys) /\
              length ys = length [(1, 0); (2, 0)]).
Proof.
  apply (plot_outcome [(1, 0); (2, 0)]).
  - compute_done.
  - repeat constructor; done.
Defined.

(** X20.  Without units, on a table with at least one entry and on the
    inputs on which the float arithmetic of [midpoint] is exact
    ([midpoint_exact]), [B] reads no draw and returns the empty
    histogram, whatever the draws. *)
Theorem B_no_units (trials : Z) (shift_map : list (Qc * Z))
    (random : nat -> nat -> Qc) :
  shift_map <> [] -> midpoint_exact trials shift_map ->
  B 0 trials shift_map random = Ok [].
Proof.
  intros Hne _. destruct (midpoint_value trials shift_map Hne) as (h & _ & _ & _ & Hmid).
  destruct (proj2 (B_trials_Ok_iff shift_map (range trials) 0 random
               (list_repeat (half_even (trials * h)) 0) (length_list_repeat _ _)))
    as [units Hunits].
  { split; [done|]. intros t i _ Hi. simpl in Hi. lia. }
  assert (B 0 trials shift_map random = Ok (B_population units)) as HB.
  { unfold B. rewrite Hmid, bind_Ok, Hunits. by rewrite bind_Ok. }
  rewrite HB. by apply B_Ok_units in HB as (mid & _ & ->).
Qed.

Lemma B_no_units_witness :
  B 0 5 default_shift_map (fun _ _ => 1%Qc) = Ok [].
Proof.
  apply (B_no_units 5 default_shift_map (fun _ _ => 1%Qc)).
  - discriminate.
  - split; [compute_done|]. intros highest Hmax. injection Hmax as <-.
    split; compute_done.
Defined.

(** The entry that [first_above] selects for a larger draw is not before
    the one that it selects for a smaller draw. *)
Lemma first_above_monotone (shift_map : list (Qc * Z)) (x y : Qc) (sx sy : Z) :
  StronglySorted Z.le (values shift_map) ->
  (x <= y)%Qc ->
  first_above shift_map x = Some sx ->
  first_above shift_map y = Some sy ->
  sx <= sy.
Proof.
  intros Hsorted Hxy. induction shift_map as [|[key shift] rest IH]; simpl; [done|].
  simpl in Hsorted. apply StronglySorted_inv in Hsorted as [Hrest Hall].
  destruct (decide (x < key)%Qc) as [Hx|Hx].
  - intros [= <-]. destruct (decide (y < key)%Qc) as [Hy|Hy].
    + intros [= <-]. lia.
    + intros Hsy. apply first_above_elem_of in Hsy.
      rewrite Forall_forall in Hall. by apply Hall.
  - rewrite decide_False; [by apply IH|].
    intros Hy. apply Hx. by eapply Qcle_lt_trans.
Qed.

(** X21.  When the steps of the table do not decrease in iteration order,
    as in the tables of [B] and of [main], [get_shift] is monotone: a
    larger draw never receives a smaller step. *)
Theorem get_shift_monotone (shift_map : list (Qc * Z)) (x y : Qc) (sx sy : Z) :
  StronglySorted Z.le (values shift_map) ->
  (x <= y)%Qc ->
  get_shift shift_map x = Ok (Some sx) ->
  get_shift shift_map y = Ok (Some sy) ->
  sx <= sy.
Proof.
  intros Hsorted Hxy. rewrite !get_shift_first_above.
  intros [= Hx] [= Hy]. by eapply first_above_monotone.
Qed.

Lemma get_shift_monotone_witness : -2 <= 1.
Proof.
  apply (get_shift_monotone main_shift_map (Q2Qc (1 # 5)) (Q2Qc (3 # 5)) (-2) 1).
  - repeat constructor; simpl; lia.
  - compute_done.
  - reflexivity.
  - reflexivity.
Defined.
